(** * ufoLib2: the lazily loaded layer set and the guideline invariant

    A shallow embedding of [ufoLib2/objects/layerSet.py] and
    [ufoLib2/objects/guideline.py], and the properties of both that the
    specification of the package states.

    Python objects that are mutated through several references (the [Layer]
    objects a [LayerSet] holds and the one its [defaultLayer] attribute names)
    live in an explicit heap; methods are computations in a state-and-exception
    monad whose state survives a raised exception, so that what a failed call
    leaves behind can be stated. *)

From stdpp Require Import gmap strings list fin_maps.
From Stdlib Require Import QArith.

Local Close Scope Q_scope.
Local Open Scope string_scope.
Local Open Scope list_scope.

(** ** Python values and exceptions *)

(** A reference to a [Layer] object: its index in the heap. *)
Abbreviation loc := nat (only parsing).

(** What a slot of [LayerSet._layers] (or the [defaultLayer] attribute) can
    hold: the sentinel [_NOT_LOADED] of [ufoLib2.objects.misc], or a reference
    to a [Layer] object. Python's [is] on two such values is [entry_is]. *)
Inductive entry :=
| NOT_LOADED
| LayerRef (l : loc).

#[global] Instance entry_eq_dec : EqDecision entry.
Proof. solve_decision. Defined.

Definition entry_is (a b : entry) : bool := bool_decide (a = b).

(** The argument of an exception: a literal string, a format string applied
    with [%] to one argument, or a bare dictionary key ([KeyError(key)]). *)
Inductive fmt_arg :=
| ArgStr (s : string)
| ArgObj (e : entry).

Inductive message :=
| Str (s : string)
| Fmt (fmt : string) (arg : fmt_arg)
| Key (k : string).

(** [InvalidRef] is no Python exception: it is what the model answers when a
    reference points outside the heap, which no Python program can build. *)
Inductive exn :=
| TypeError (m : message)
| ValueError (m : message)
| KeyError (m : message)
| AttributeError (m : message)
| RuntimeError (m : message)
| AssertionError
| StopIteration
| InvalidRef (l : loc).

#[global] Instance fmt_arg_eq_dec : EqDecision fmt_arg.
Proof. solve_decision. Defined.
#[global] Instance message_eq_dec : EqDecision message.
Proof. solve_decision. Defined.
#[global] Instance exn_eq_dec : EqDecision exn.
Proof. solve_decision. Defined.

(** ** guideline.py *)

Module Guideline.

(** [ufoLib2.typing.Number] is [Union[int, float]]. An [int] and a finite
    [float] denote a rational; Python compares an [int] with a [float] by
    exact value, so the comparisons below are those of [Q]. The two infinities
    and NaN are the remaining [float]s. *)
Inductive Number :=
| Finite (q : Q)
| Infinity (negative : bool)
| NaN.

Definition of_int (z : Z) : Number := Finite (inject_Z z).

(** [i <= a] and [a <= i] for an integer literal [i]. *)
Definition int_le_number (i : Z) (a : Number) : bool :=
  match a with
  | Finite q => Qle_bool (inject_Z i) q
  | Infinity negative => negb negative
  | NaN => false
  end.

Definition number_le_int (a : Number) (i : Z) : bool :=
  match a with
  | Finite q => Qle_bool q (inject_Z i)
  | Infinity negative => negative
  | NaN => false
  end.

Record Guideline := mkGuideline {
  x : option Number;
  y : option Number;
  angle : option Number;
  name : option string;
  color : option string;
  identifier : option string
}.

Definition msg_x_or_y : string := "x or y must be present".
Definition msg_angle_absent : string :=
  "if 'x' or 'y' are None, 'angle' must not be present".
Definition msg_angle_defined : string :=
  "if 'x' and 'y' are defined, 'angle' must be defined".
Definition msg_angle_range : string := "angle must be between 0 and 360".

(** [0 <= angle <= 360] *)
Definition angle_in_range (a : Number) : bool :=
  int_le_number 0 a && number_le_int a 360.

(** [Guideline.__attrs_post_init__]: [None] when it returns, [Some e] when it
    raises [e]. *)
Definition __attrs_post_init__ (self : Guideline) : option exn :=
  let '(x, y, angle) := (x self, y self, angle self) in
  if bool_decide (x = None) && bool_decide (y = None)
  then Some (ValueError (Str msg_x_or_y))
  else if (bool_decide (x = None) || bool_decide (y = None))
          && negb (bool_decide (angle = None))
  then Some (ValueError (Str msg_angle_absent))
  else if negb (bool_decide (x = None)) && negb (bool_decide (y = None))
          && bool_decide (angle = None)
  then Some (ValueError (Str msg_angle_defined))
  else match angle with
       | Some a =>
           if negb (angle_in_range a)
           then Some (ValueError (Str msg_angle_range))
           else None
       | None => None
       end.

(** The constructor attrs generates: set the fields, then validate. *)
Definition __init__ (x y angle : option Number) (name color identifier : option string)
  : exn + Guideline :=
  let self := mkGuideline x y angle name color identifier in
  match __attrs_post_init__ self with
  | Some e => inl e
  | None => inr self
  end.

(** The rules of the geometric invariant, as the specification words them. *)
Inductive rule :=
| XOrYPresent
| AngleAbsentWithOne
| AngleDefinedWithBoth
| AngleInRange.

Definition in_0_360 (a : Number) : Prop :=
  match a with
  | Finite q => (0 <= q)%Q /\ (q <= 360)%Q
  | Infinity _ | NaN => False
  end.

Definition rule_holds (r : rule) (x y angle : option Number) : Prop :=
  match r with
  | XOrYPresent => is_Some x \/ is_Some y
  | AngleAbsentWithOne =>
      (is_Some x /\ y = None) \/ (x = None /\ is_Some y) -> angle = None
  | AngleDefinedWithBoth => is_Some x /\ is_Some y -> is_Some angle
  | AngleInRange => forall a, angle = Some a -> in_0_360 a
  end.

Definition geometric_invariant (x y angle : option Number) : Prop :=
  forall r, rule_holds r x y angle.

Definition rule_message (r : rule) : string :=
  match r with
  | XOrYPresent => msg_x_or_y
  | AngleAbsentWithOne => msg_angle_absent
  | AngleDefinedWithBoth => msg_angle_defined
  | AngleInRange => msg_angle_range
  end.

End Guideline.

(** ** The objects a layer set works with *)

Module Glyph.

(** Of a glyph, the layer set touches the [_name] attribute only; [outline]
    stands for everything else the object holds. *)
Record Glyph := mk {
  _name : string;
  outline : nat
}.

End Glyph.

Module Layer.

(** Modelled from the spec: the class [Layer] of [ufoLib2/objects/layer.py],
    which the layer set imports; the spec gives it as "a named, glyph-keyed
    container" that "exposes membership test, pop/insert-by-name, and a write
    operation taking an output handle". A glyph is held by value: one glyph
    object stored in two layers at once is outside the model. *)
Record Layer := mk {
  _name : string;
  _glyphs : gmap string Glyph.Glyph
}.

(** [name in layer] *)
Definition __contains__ (self : Layer) (name : string) : bool :=
  bool_decide (is_Some (_glyphs self !! name)).

(** [del layer[name]] *)
Definition __delitem__ (self : Layer) (name : string) : exn + Layer :=
  match _glyphs self !! name with
  | Some _ => inr (mk (_name self) (delete name (_glyphs self)))
  | None => inl (KeyError (Key name))
  end.

(** [layer.pop(name)] *)
Definition pop (self : Layer) (name : string) : exn + (Glyph.Glyph * Layer) :=
  match _glyphs self !! name with
  | Some g => inr (g, mk (_name self) (delete name (_glyphs self)))
  | None => inl (KeyError (Key name))
  end.

(** [layer[name] = glyph] *)
Definition __setitem__ (self : Layer) (name : string) (glyph : Glyph.Glyph) : Layer :=
  mk (_name self) (<[name := glyph]> (_glyphs self)).

(** [glyph._name = newName], for the glyph object stored under [key]. *)
Definition set_glyph_name (self : Layer) (key newName : string) : Layer :=
  mk (_name self) (alter (fun g => Glyph.mk newName (Glyph.outline g)) key (_glyphs self)).

End Layer.

(** Modelled from the spec: the backing store, an object of
    [fontTools.ufoLib] ([UFOReader], or [UFOWriter], which extends it) that the
    layer set is handed. [store_id] is the identity of the object ([is]);
    [glyphSet] is what the store holds for a layer name; a [UFOReader]'s
    [getGlyphSet] does not take the keyword [defaultLayer], a [UFOWriter]'s
    does. *)
Record Store := mkStore {
  store_id : nat;
  getDefaultLayerName : string;
  getLayerNames : list string;
  glyphSet : string -> gmap string Glyph.Glyph;
  takes_defaultLayer : bool
}.

(** What reaches the outside, in the order it happens. *)
Inductive event :=
| EvGetGlyphSet (store : nat) (layerName : string) (defaultLayer : option bool)
| EvLayerRead (layerName : string) (lazy : bool) (layer : loc)
| EvDeleteGlyphSet (store : nat) (layerName : string)
| EvLayerWrite (layer : loc) (saveAs : bool)
| EvWriteLayerContents (store : nat) (layerOrder : list string).

#[global] Instance event_eq_dec : EqDecision event.
Proof. solve_decision. Defined.

(** ** [OrderedDict], as an association list in insertion order *)

Section OrderedDict.
Context {V : Type}.

Fixpoint od_get (k : string) (d : list (string * V)) : option V :=
  match d with
  | [] => None
  | (k', v) :: d' => if decide (k' = k) then Some v else od_get k d'
  end.

(** [d[k] = v]: an existing key keeps its place, a new one goes last. *)
Fixpoint od_set (k : string) (v : V) (d : list (string * V)) : list (string * V) :=
  match d with
  | [] => [(k, v)]
  | (k', v') :: d' =>
      if decide (k' = k) then (k, v) :: d' else (k', v') :: od_set k v d'
  end.

Fixpoint od_del (k : string) (d : list (string * V)) : list (string * V) :=
  match d with
  | [] => []
  | (k', v') :: d' => if decide (k' = k) then d' else (k', v') :: od_del k d'
  end.

Definition od_keys (d : list (string * V)) : list string := d.*1.
Definition od_values (d : list (string * V)) : list V := d.*2.
Definition od_contains (k : string) (d : list (string * V)) : bool :=
  bool_decide (k ∈ od_keys d).

End OrderedDict.

(** ** The state and the monad *)

Module LayerSet.

Record LayerSet := mk {
  _layers : list (string * entry);
  defaultLayer : option entry;
  _reader : option Store
}.

End LayerSet.

Import LayerSet(_layers, defaultLayer, _reader).

(** [self] is the layer set the methods run on; [heap] holds the [Layer]
    objects; [trace] is the log of events, oldest first. *)
Record St := mkSt {
  self : LayerSet.LayerSet;
  heap : list Layer.Layer;
  trace : list event
}.

(** A computation returns a value or raises, and leaves a state either way. *)
Definition M (A : Type) : Type := St -> (exn + A) * St.

Definition ret {A} (a : A) : M A := fun st => (inr a, st).
Definition raise {A} (e : exn) : M A := fun st => (inl e, st).
Definition bind {A B} (m : M A) (f : A -> M B) : M B :=
  fun st => match m st with
            | (inl e, st') => (inl e, st')
            | (inr a, st') => f a st'
            end.

Declare Scope monad_scope.
Delimit Scope monad_scope with monad.
Notation "x <- c1 ;; c2" := (bind c1 (fun x => c2))
  (at level 100, c1 at next level, right associativity) : monad_scope.
Notation "c1 ;; c2" := (bind c1 (fun _ => c2))
  (at level 100, right associativity) : monad_scope.
Local Open Scope monad_scope.

Definition get_self : M LayerSet.LayerSet := fun st => (inr (self st), st).
Definition put_self (s : LayerSet.LayerSet) : M unit :=
  fun st => (inr tt, mkSt s (heap st) (trace st)).
Definition emit (e : event) : M unit :=
  fun st => (inr tt, mkSt (self st) (heap st) (trace st ++ [e])).
Definition alloc (L : Layer.Layer) : M loc :=
  fun st => (inr (length (heap st)), mkSt (self st) (heap st ++ [L]) (trace st)).
Definition deref (l : loc) : M Layer.Layer :=
  fun st => match heap st !! l with
            | Some L => (inr L, st)
            | None => (inl (InvalidRef l), st)
            end.
Definition store (l : loc) (L : Layer.Layer) : M unit :=
  fun st => (inr tt, mkSt (self st) (<[l := L]> (heap st)) (trace st)).
Definition lift {A} (r : exn + A) : M A :=
  match r with inl e => raise e | inr a => ret a end.

(** Assignments to the attributes of [self]. *)
Definition set_layers (d : list (string * entry)) : M unit :=
  s <- get_self ;; put_self (LayerSet.mk d (defaultLayer s) (_reader s)).
Definition set_defaultLayer (v : option entry) : M unit :=
  s <- get_self ;; put_self (LayerSet.mk (_layers s) v (_reader s)).
Definition set_reader (r : option Store) : M unit :=
  s <- get_self ;; put_self (LayerSet.mk (_layers s) (defaultLayer s) r).

(** The methods of a [Layer], on a reference. *)
Definition layer_contains (l : loc) (name : string) : M bool :=
  L <- deref l ;; ret (Layer.__contains__ L name).
Definition layer_delitem (l : loc) (name : string) : M unit :=
  L <- deref l ;; L' <- lift (Layer.__delitem__ L name) ;; store l L'.
Definition layer_pop (l : loc) (name : string) : M Glyph.Glyph :=
  L <- deref l ;; r <- lift (Layer.pop L name) ;; store l r.2 ;; ret r.1.
Definition layer_setitem (l : loc) (name : string) (glyph : Glyph.Glyph) : M unit :=
  L <- deref l ;; store l (Layer.__setitem__ L name glyph).
Definition layer_set_glyph_name (l : loc) (key newName : string) : M unit :=
  L <- deref l ;; store l (Layer.set_glyph_name L key newName).
Definition layer_set_name (l : loc) (newName : string) : M unit :=
  L <- deref l ;; store l (Layer.mk newName (Layer._glyphs L)).

(** ** layerSet.py *)

(** [ufoLib2.constants.DEFAULT_LAYER_NAME] *)
Definition DEFAULT_LAYER_NAME : string := "public.default".

(** What the constructor can be given for [layers]: an [OrderedDict], taken
    as it is, or any other iterable, whose elements may or may not be [Layer]
    objects. *)
Inductive item :=
| ItemLayer (l : loc)
| ItemOther (type_name : string).

Inductive layers_arg :=
| AnOrderedDict (d : list (string * entry))
| AnIterable (items : list item).

(** The loop of [_convert_layers], with the dictionary built so far. *)
Fixpoint _convert_layers_loop (value : list item) (layers : list (string * entry))
  : M (list (string * entry)) :=
  match value with
  | [] => ret layers
  | ItemOther type_name :: _ =>
      raise (TypeError (Fmt "expected 'Layer', found '%s'" (ArgStr type_name)))
  | ItemLayer l :: value' =>
      layer <- deref l ;;
      if od_contains (Layer._name layer) layers
      then raise (KeyError (Fmt "duplicate layer name: '%s'" (ArgStr (Layer._name layer))))
      else _convert_layers_loop value' (od_set (Layer._name layer) (LayerRef l) layers)
  end.

Definition _convert_layers (value : layers_arg) : M (list (string * entry)) :=
  match value with
  | AnOrderedDict d => ret d
  | AnIterable items => _convert_layers_loop items []
  end.

(** [LayerSet._loadLayer]: one [getGlyphSet] on the reader (a reader that does
    not take the keyword [defaultLayer] rejects the first call with a
    [TypeError] before it does anything, and is called again without it), then
    [Layer.read], which builds the layer object. *)
Definition _loadLayer (reader : Store) (layerName : string) (lazy default : bool) : M loc :=
  emit (EvGetGlyphSet (store_id reader) layerName
          (if takes_defaultLayer reader then Some default else None)) ;;
  layer <- alloc (Layer.mk layerName (glyphSet reader layerName)) ;;
  emit (EvLayerRead layerName lazy layer) ;;
  ret layer.

Definition loadLayer (layerName : string) (lazy default : bool) : M loc :=
  s <- get_self ;;
  match _reader s with
  | None => raise AssertionError
  | Some reader =>
      if negb (od_contains layerName (_layers s))
      then raise (KeyError (Key layerName))
      else
        layer <- _loadLayer reader layerName lazy default ;;
        s <- get_self ;;
        set_layers (od_set layerName (LayerRef layer) (_layers s)) ;;
        ret layer
  end.

Definition __contains__ (name : string) : M bool :=
  s <- get_self ;; ret (od_contains name (_layers s)).

(** [self.defaultLayer.name] *)
Definition defaultLayer_name : M string :=
  s <- get_self ;;
  match defaultLayer s with
  | None => raise (AttributeError (Str "'NoneType' object has no attribute 'name'"))
  | Some NOT_LOADED => raise (AttributeError (Str "'object' object has no attribute 'name'"))
  | Some (LayerRef l) => layer <- deref l ;; ret (Layer._name layer)
  end.

(** [del self._layers[name]] *)
Definition del_layers_item (name : string) : M unit :=
  s <- get_self ;;
  if od_contains name (_layers s)
  then set_layers (od_del name (_layers s))
  else raise (KeyError (Key name)).

Definition __delitem__ (name : string) : M unit :=
  default_name <- defaultLayer_name ;;
  if decide (name = default_name)
  then raise (KeyError (Fmt "cannot delete default layer %r" (ArgStr name)))
  else del_layers_item name.

Definition __getitem__ (name : string) : M loc :=
  s <- get_self ;;
  match od_get name (_layers s) with
  | None => raise (KeyError (Key name))
  | Some NOT_LOADED => loadLayer name true false
  | Some (LayerRef l) => ret l
  end.

(** One round of the generator [__iter__], at the key [layer_name]. The keys
    are those the dictionary had when the iteration began; the value is read
    when the key is reached. An [OrderedDict] that lost the key in between has
    been resized, which its iterator answers with a [RuntimeError]. *)
Definition __iter__step (layer_name : string) : M loc :=
  s <- get_self ;;
  match od_get layer_name (_layers s) with
  | None => raise (RuntimeError (Str "OrderedDict mutated during iteration"))
  | Some NOT_LOADED => loadLayer layer_name true false
  | Some (LayerRef l) => ret l
  end.

(** [for layer in self: body(layer)], over the keys still to visit. *)
Fixpoint for_layer_in (layer_names : list string) (body : loc -> M unit) : M unit :=
  match layer_names with
  | [] => ret tt
  | layer_name :: rest =>
      layer <- __iter__step layer_name ;;
      body layer ;;
      for_layer_in rest body
  end.

Definition for_layer_in_self (body : loc -> M unit) : M unit :=
  s <- get_self ;; for_layer_in (od_keys (_layers s)) body.

(** [any(p(layer) for layer in self)]: the generator is not resumed after the
    first layer that satisfies [p]. *)
Fixpoint any_layer_in (layer_names : list string) (p : loc -> M bool) : M bool :=
  match layer_names with
  | [] => ret false
  | layer_name :: rest =>
      layer <- __iter__step layer_name ;;
      b <- p layer ;;
      if b : bool then ret true else any_layer_in rest p
  end.

Definition any_layer_in_self (p : loc -> M bool) : M bool :=
  s <- get_self ;; any_layer_in (od_keys (_layers s)) p.

Definition __len__ : M nat :=
  s <- get_self ;; ret (length (_layers s)).

(** [get(name, default=None)]: a [KeyError] of [self[name]] is caught, and
    only that. *)
Definition get (name : string) (default : option loc) : M (option loc) :=
  fun st => match __getitem__ name st with
            | (inr l, st') => (inr (Some l), st')
            | (inl (KeyError _), st') => (inr default, st')
            | (inl e, st') => (inl e, st')
            end.

Definition keys : M (list string) :=
  s <- get_self ;; ret (od_keys (_layers s)).

(** The getter of the property [layerOrder]: [list(self._layers)]. *)
Definition layerOrder : M (list string) :=
  s <- get_self ;; ret (od_keys (_layers s)).

(** The loop of the setter, with the dictionary built so far. *)
Fixpoint layerOrder_setter_loop (order : list string) (old layers : list (string * entry))
  : M (list (string * entry)) :=
  match order with
  | [] => ret layers
  | name :: order' =>
      match od_get name old with
      | None => raise (KeyError (Key name))
      | Some v => layerOrder_setter_loop order' old (od_set name v layers)
      end
  end.

(** The setter of [layerOrder]. Both [set(...)] are finite sets of names. *)
Definition layerOrder_setter (order : list string) : M unit :=
  s <- get_self ;;
  if negb (bool_decide ((list_to_set order : gset string) = list_to_set (od_keys (_layers s))))
  then raise AssertionError
  else
    layers <- layerOrder_setter_loop order (_layers s) [] ;;
    set_layers layers.

(** The first occurrences of the names of [order] that are not in [seen]. *)
Fixpoint fresh_names (seen order : list string) : list string :=
  match order with
  | [] => []
  | name :: order' =>
      if decide (name ∈ seen) then fresh_names seen order'
      else name :: fresh_names (seen ++ [name]) order'
  end.

(** [Layer(name, **kwargs)] builds an empty layer; the keyword arguments go to
    attributes of the layer the set never looks at. *)
Definition newLayer (name : string) : M loc :=
  s <- get_self ;;
  if od_contains name (_layers s)
  then raise (KeyError (Fmt "layer %r already exists" (ArgStr name)))
  else
    layer <- alloc (Layer.mk name ∅) ;;
    set_layers (od_set name (LayerRef layer) (_layers s)) ;;
    ret layer.

(** The body of the second loop of [renameGlyph]: prepare destination,
    delete if overwrite=True or error. *)
Definition renameGlyph_prepare (newName : string) (overwrite : bool) (layer : loc) : M unit :=
  taken <- layer_contains layer newName ;;
  if taken : bool
  then if overwrite
       then layer_delitem layer newName
       else raise (KeyError (Fmt "target name %r already exists" (ArgStr newName)))
  else ret tt.

(** The body of its third loop: now do the move. *)
Definition renameGlyph_move (name newName : string) (layer : loc) : M unit :=
  present <- layer_contains layer name ;;
  if present : bool
  then
    glyph <- layer_pop layer name ;;
    layer_setitem layer newName glyph ;;
    layer_set_glyph_name layer newName newName
  else ret tt.

Definition renameGlyph (name newName : string) (overwrite : bool) : M unit :=
  if decide (name = newName) then ret tt
  else
    (* make sure we're copying something *)
    found <- any_layer_in_self (fun layer => layer_contains layer name) ;;
    if negb found
    then raise (KeyError (Fmt "name %r is not in layer set" (ArgStr name)))
    else
      for_layer_in_self (renameGlyph_prepare newName overwrite) ;;
      for_layer_in_self (renameGlyph_move name newName).

Definition renameLayer (name newName : string) (overwrite : bool) : M unit :=
  if decide (name = newName) then ret tt
  else
    s <- get_self ;;
    if negb overwrite && od_contains newName (_layers s)
    then raise (KeyError (Fmt "target name %r already exists" (ArgStr newName)))
    else
      layer <- __getitem__ name ;;
      del_layers_item name ;;
      s <- get_self ;;
      set_layers (od_set newName (LayerRef layer) (_layers s)) ;;
      layer_set_name layer newName.

(** [self._reader is not writer] *)
Definition reader_is_not (r : option Store) (writer : Store) : bool :=
  match r with
  | Some reader => negb (bool_decide (store_id reader = store_id writer))
  | None => true
  end.

(** The deletion pass of [write]: the names the writer lists that are no key
    of [layers], in the order the set yields them. *)
Definition deleted_layers (writer : Store) (layers : list (string * entry)) : list string :=
  elements ((list_to_set (getLayerNames writer) : gset string) ∖ list_to_set (od_keys layers)).

Fixpoint delete_glyph_sets (writer : Store) (names : list string) : M unit :=
  match names with
  | [] => ret tt
  | name :: rest => emit (EvDeleteGlyphSet (store_id writer) name) ;; delete_glyph_sets writer rest
  end.

(** The body of the loop of [write] over [layers.items()], at the key [name]. *)
Definition write_layer (writer : Store) (saveAs : bool) (defaultLayer : option entry)
    (name : string) : M unit :=
  s <- get_self ;;
  match od_get name (_layers s) with
  | None => raise (RuntimeError (Str "OrderedDict mutated during iteration"))
  | Some layer =>
      let default := bool_decide (Some layer = defaultLayer) in
      match layer with
      | NOT_LOADED =>
          if saveAs
          then
            layer <- loadLayer name false false ;;
            emit (EvGetGlyphSet (store_id writer) name (Some default)) ;;
            emit (EvLayerWrite layer saveAs)
          else ret tt
      | LayerRef layer =>
          emit (EvGetGlyphSet (store_id writer) name (Some default)) ;;
          emit (EvLayerWrite layer saveAs)
      end
  end.

Fixpoint write_layers (writer : Store) (saveAs : bool) (defaultLayer : option entry)
    (names : list string) : M unit :=
  match names with
  | [] => ret tt
  | name :: rest =>
      write_layer writer saveAs defaultLayer name ;;
      write_layers writer saveAs defaultLayer rest
  end.

Definition write (writer : Store) (saveAs : option bool) : M unit :=
  s <- get_self ;;
  let saveAs := match saveAs with
                | None => reader_is_not (_reader s) writer
                | Some b => b
                end in
  (* if in-place, remove deleted layers *)
  let layers := _layers s in
  (if negb saveAs
   then delete_glyph_sets writer (deleted_layers writer layers)
   else ret tt) ;;
  (* write layers *)
  let defaultLayer := defaultLayer s in
  write_layers writer saveAs defaultLayer (od_keys layers) ;;
  order <- layerOrder ;;
  emit (EvWriteLayerContents (store_id writer) order).

(** Python's builtin [next] takes an iterator. The view [d.values()] of a
    dictionary is iterable, but is no iterator: [iter] makes one of it. *)
Inductive iterable :=
| values (d : list (string * entry))
| iter (it : iterable).

Fixpoint next (it : iterable) : exn + entry :=
  match it with
  | values _ => inl (TypeError (Str "'odict_values' object is not an iterator"))
  | iter (values d) =>
      match od_values d with
      | v :: _ => inr v
      | [] => inl StopIteration
      end
  | iter it' => next it'
  end.

Definition __attrs_post_init__ : M unit :=
  s <- get_self ;;
  match _layers s with
  | [] =>
      (* LayerSet is never empty; always contains at least the default *)
      match defaultLayer s with
      | Some _ =>
          raise (TypeError (Str "'defaultLayer' argument is invalid with empty LayerSet"))
      | None =>
          layer <- newLayer DEFAULT_LAYER_NAME ;;
          set_defaultLayer (Some (LayerRef layer))
      end
  | _ :: _ =>
      match defaultLayer s with
      | Some default =>
          (* check that the specified default layer is in the layer set *)
          if existsb (fun layer => entry_is layer default) (od_values (_layers s))
          then ret tt
          else raise (ValueError (Fmt "defaultLayer %r is not among the specified layers"
                                    (ArgObj default)))
      | None =>
          if bool_decide (length (_layers s) = 1%nat)
          then
            (* there's only one, we assume it's the default *)
            layer <- lift (next (values (_layers s))) ;;
            set_defaultLayer (Some layer)
          else
            match od_get DEFAULT_LAYER_NAME (_layers s) with
            | None => raise (ValueError (Str "default layer not specified"))
            | Some layer => set_defaultLayer (Some layer)
            end
      end
  end.

(** The constructor attrs generates, on a fresh [self]: the converter of
    [_layers], the attributes, then [__attrs_post_init__]. *)
Definition __init__ (layers : layers_arg) (defaultLayer : option entry) : M unit :=
  layers <- _convert_layers layers ;;
  put_self (LayerSet.mk layers defaultLayer None) ;;
  __attrs_post_init__.

(** The loop of [read] over [reader.getLayerNames()], with its two local
    variables [layers] and [defaultLayer]. *)
Fixpoint read_loop (reader : Store) (lazy : bool) (defaultLayerName : string)
    (layerNames : list string) (layers : list (string * entry)) (defaultLayer : option entry)
  : M (list (string * entry) * option entry) :=
  match layerNames with
  | [] => ret (layers, defaultLayer)
  | layerName :: rest =>
      let isDefault := bool_decide (layerName = defaultLayerName) in
      if isDefault || negb lazy
      then
        layer <- _loadLayer reader layerName lazy isDefault ;;
        read_loop reader lazy defaultLayerName rest
          (od_set layerName (LayerRef layer) layers)
          (if isDefault then Some (LayerRef layer) else defaultLayer)
      else
        read_loop reader lazy defaultLayerName rest
          (od_set layerName NOT_LOADED layers) defaultLayer
  end.

(** The class method [read]; the new layer set is the [self] it leaves. *)
Definition read (reader : Store) (lazy : bool) : M unit :=
  let defaultLayerName := getDefaultLayerName reader in
  r <- read_loop reader lazy defaultLayerName (getLayerNames reader) [] None ;;
  match r.2 with
  | None => raise AssertionError
  | Some _ =>
      __init__ (AnOrderedDict r.1) r.2 ;;
      if lazy then set_reader (Some reader) else ret tt
  end.

(** A state no layer set has been built in yet. *)
Definition blank : St := mkSt (LayerSet.mk [] None None) [] [].

(** ** Small worlds to run the methods in *)

Definition glyph (n : string) : Glyph.Glyph := Glyph.mk n 0.

Definition glyphs_named (names : list string) : gmap string Glyph.Glyph :=
  list_to_map ((fun n => (n, glyph n)) <$> names).

(** A package of three layers: the default one holds c; bg holds a and b; fg
    holds b. *)
Definition example_store : Store :=
  mkStore 7 DEFAULT_LAYER_NAME [DEFAULT_LAYER_NAME; "bg"; "fg"]
    (fun n => if decide (n = "bg") then glyphs_named ["a"; "b"]
              else if decide (n = "fg") then glyphs_named ["b"]
              else glyphs_named ["c"])
    false.

(** The layer set [LayerSet.read(example_store, lazy=True)] builds. *)
Definition example_lazy : St := (read example_store true blank).2.

(** Two loaded, empty layers, the first of them the default. *)
Definition two_layers : St :=
  mkSt (LayerSet.mk [(DEFAULT_LAYER_NAME, LayerRef 0); ("a", LayerRef 1)]
          (Some (LayerRef 0)) None)
       [Layer.mk DEFAULT_LAYER_NAME ∅; Layer.mk "a" ∅] [].

(** The default layer is among the entries, as the same object. *)
Definition default_in_set (st : St) : bool :=
  match defaultLayer (self st) with
  | Some default => existsb (fun layer => entry_is layer default) (od_values (_layers (self st)))
  | None => false
  end.

(** ** What a layer set holds, and what a load may change *)

(** The glyphs an entry stands for: those of the layer object, or, for a
    pending entry, those the reader holds under the name. *)
Definition entry_glyphs (st : St) (name : string) (e : entry)
  : option (gmap string Glyph.Glyph) :=
  match e with
  | LayerRef l => Layer._glyphs <$> heap st !! l
  | NOT_LOADED => (fun reader => glyphSet reader name) <$> _reader (self st)
  end.

(** The glyph mapping of the layer [name] of the set. *)
Definition glyphs_at (st : St) (name : string) : option (gmap string Glyph.Glyph) :=
  od_get name (_layers (self st)) ≫= entry_glyphs st name.

(** [glyph_name] is a glyph of the layer [layer_name]. *)
Definition in_layer (st : St) (glyph_name layer_name : string) : bool :=
  match glyphs_at st layer_name with
  | Some glyphs => bool_decide (is_Some (glyphs !! glyph_name))
  | None => false
  end.

(** A loaded entry names an object of the heap; a pending one has a reader to
    be loaded from. *)
Definition entry_ok (st : St) (e : entry) : Prop :=
  match e with
  | LayerRef l => l < length (heap st)
  | NOT_LOADED => is_Some (_reader (self st))
  end.

(** The states a program can reach: a dictionary has no key twice, and every
    entry is [entry_ok]. *)
Record wf (st : St) : Prop := {
  wf_keys : NoDup (od_keys (_layers (self st)));
  wf_entries : Forall (fun p => entry_ok st p.2) (_layers (self st))
}.

(** [st'] is [st] after some pending entries have been loaded, and nothing
    else: same names in the same order, same default layer, same reader, the
    loaded entries and the objects of the heap as they were, and the same
    glyphs under every layer name. *)
Record extends (st st' : St) : Prop := {
  ext_keys : od_keys (_layers (self st')) = od_keys (_layers (self st));
  ext_default : defaultLayer (self st') = defaultLayer (self st);
  ext_reader : _reader (self st') = _reader (self st);
  ext_loaded : forall n l, od_get n (_layers (self st)) = Some (LayerRef l) ->
                           od_get n (_layers (self st')) = Some (LayerRef l);
  ext_heap : heap st `prefix_of` heap st';
  ext_glyphs : forall n, glyphs_at st' n = glyphs_at st n;
  ext_trace : trace st `prefix_of` trace st'
}.

(** The two events of one load. *)
Definition load_events (reader : Store) (layerName : string) (lazy default : bool)
    (layer : loc) : list event :=
  [EvGetGlyphSet (store_id reader) layerName
     (if takes_defaultLayer reader then Some default else None);
   EvLayerRead layerName lazy layer].

(** The state [loadLayer] leaves when it loads the pending entry [layerName]
    from [reader]. *)
Definition loaded (st : St) (reader : Store) (layerName : string) (lazy default : bool) : St :=
  mkSt (LayerSet.mk (od_set layerName (LayerRef (length (heap st))) (_layers (self st)))
          (defaultLayer (self st)) (_reader (self st)))
       (heap st ++ [Layer.mk layerName (glyphSet reader layerName)])
       (trace st ++ load_events reader layerName lazy default (length (heap st))).

(** [self[name]], [times] times over; the layers it returned, in order. *)
Fixpoint getitem_times (name : string) (times : nat) : M (list loc) :=
  match times with
  | O => ret []
  | S times' =>
      layer <- __getitem__ name ;;
      layers <- getitem_times name times' ;;
      ret (layer :: layers)
  end.

(** ** What [write] sends to the writer *)

(** The two events of writing one layer object under [name]. *)
Definition write_events (writer : Store) (name : string) (default saveAs : bool)
    (layer : loc) : list event :=
  [EvGetGlyphSet (store_id writer) name (Some default); EvLayerWrite layer saveAs].

(** What an in-place write sends for the key [name]: the two events of a
    write for a loaded entry, nothing for a pending one. *)
Definition in_place_events (writer : Store) (layers : list (string * entry))
    (defaultLayer : option entry) (name : string) : list event :=
  match od_get name layers with
  | Some (LayerRef l) =>
      write_events writer name (bool_decide (Some (LayerRef l) = defaultLayer)) false l
  | Some NOT_LOADED | None => []
  end.

Definition is_read (e : event) : bool :=
  match e with
  | EvLayerRead _ _ _ => true
  | _ => false
  end.

Definition is_delete (e : event) : bool :=
  match e with
  | EvDeleteGlyphSet _ _ => true
  | _ => false
  end.

(** The state after [events] have been logged. *)
Definition logged (events : list event) (st : St) : St :=
  mkSt (self st) (heap st) (trace st ++ events).

(** What a save-as write sends for the key [name], from the state [st] the
    write began in to the state [st'] it ended in: the two events of a write
    for an entry that was loaded; for one that was pending, the two events of
    a load that is not lazy, which puts the new layer object in place of the
    entry, and then the two events of writing that object. *)
Inductive save_as_segment (writer : Store) (defaultLayer : option entry) (st st' : St)
    (name : string) : list event -> Prop :=
| segment_loaded (l : loc) :
    od_get name (_layers (self st)) = Some (LayerRef l) ->
    save_as_segment writer defaultLayer st st' name
      (write_events writer name (bool_decide (Some (LayerRef l) = defaultLayer)) true l)
| segment_pending (reader : Store) (l : loc) :
    od_get name (_layers (self st)) = Some NOT_LOADED ->
    _reader (self st) = Some reader ->
    od_get name (_layers (self st')) = Some (LayerRef l) ->
    heap st' !! l = Some (Layer.mk name (glyphSet reader name)) ->
    save_as_segment writer defaultLayer st st' name
      (load_events reader name false false l
       ++ write_events writer name (bool_decide (Some NOT_LOADED = defaultLayer)) true l).

(** ** What the other methods leave *)

(** The state [renameLayer] leaves when it renames the loaded layer [l],
    whose glyphs are [glyphs], from [name] to [newName]. *)
Definition renamed (st : St) (name newName : string) (l : loc)
    (glyphs : gmap string Glyph.Glyph) : St :=
  mkSt (LayerSet.mk (od_set newName (LayerRef l) (od_del name (_layers (self st))))
          (defaultLayer (self st)) (_reader (self st)))
       (<[l := Layer.mk newName glyphs]> (heap st))
       (trace st).

(** What [read] keeps true of the dictionary it builds: a loaded entry names
    an object of the heap, and an entry is pending only in a lazy read. *)
Definition read_entry_ok (lazy : bool) (st : St) (p : string * entry) : Prop :=
  match p.2 with
  | LayerRef l => l < length (heap st)
  | NOT_LOADED => lazy = true
  end.

(** No two entries of the set are the same layer object. *)
Definition no_alias (st : St) : Prop :=
  forall n1 n2 l,
    od_get n1 (_layers (self st)) = Some (LayerRef l) ->
    od_get n2 (_layers (self st)) = Some (LayerRef l) ->
    n1 = n2.

(** The glyphs of a layer once [name] has been moved to [newName]: the glyph
    that was under [name] is under [newName] and carries that name; a layer
    without [name] keeps its glyphs. *)
Definition glyphs_moved (name newName : string) (glyphs : gmap string Glyph.Glyph)
  : gmap string Glyph.Glyph :=
  match glyphs !! name with
  | Some g => <[newName := Glyph.mk newName (Glyph.outline g)]> (delete name glyphs)
  | None => glyphs
  end.

(** The state after the layer object [l] has had its glyphs replaced. *)
Definition with_glyphs (st : St) (l : loc) (L : Layer.Layer)
    (glyphs : gmap string Glyph.Glyph) : St :=
  mkSt (self st) (<[l := Layer.mk (Layer._name L) glyphs]> (heap st)) (trace st).

(** [body] does to a layer object what [f] does to its glyphs, and nothing
    else. *)
Definition acts_on_glyphs (body : loc -> M unit)
    (f : gmap string Glyph.Glyph -> gmap string Glyph.Glyph) : Prop :=
  forall l L st,
    heap st !! l = Some L ->
    body l st = (inr tt, with_glyphs st l L (f (Layer._glyphs L))).

(** [layer.unlazify()], on a reference. Modelled from the spec: [Layer] is
    not under the sources; its [unlazify] loads the glyphs of the layer,
    which the model holds loaded from the moment the layer is read, so on the
    layer object there is nothing left to do. *)
Definition layer_unlazify (l : loc) : M unit :=
  L <- deref l ;; ret tt.

(** [LayerSet.unlazify]: load all layers into memory. *)
Definition unlazify : M unit :=
  for_layer_in_self layer_unlazify.

(** [list(self)]: the generator [__iter__] run to its end; the layers it
    yields, in order. *)
Fixpoint iterate (layer_names : list string) : M (list loc) :=
  match layer_names with
  | [] => ret []
  | layer_name :: rest =>
      layer <- __iter__step layer_name ;;
      layers <- iterate rest ;;
      ret (layer :: layers)
  end.

Definition list_self : M (list loc) :=
  s <- get_self ;; iterate (od_keys (_layers s)).

(** * Properties *)

(** ** The guideline invariant *)

Section GuidelineFacts.
Import Guideline.

Lemma angle_in_range_spec (a : Number) : angle_in_range a = true <-> in_0_360 a.
Proof.
  unfold angle_in_range. destruct a as [q|[]|]; simpl.
  - rewrite andb_true_iff, !Qle_bool_iff. reflexivity.
  - split; [discriminate | tauto].
  - split; [discriminate | tauto].
  - split; [discriminate | tauto].
Qed.

Lemma post_init_ok (x y angle : option Number) (n c i : option string) :
  __attrs_post_init__ (mkGuideline x y angle n c i) = None <->
  geometric_invariant x y angle.
Proof.
  unfold __attrs_post_init__, geometric_invariant; simpl. split.
  - intros H r.
    destruct x as [vx|], y as [vy|], angle as [a|]; simpl in H; try discriminate H.
    all: try (destruct (angle_in_range a) eqn:Hr; simpl in H; [| discriminate H]).
    all: destruct r; simpl; eauto.
    all: try (intros; simplify_eq; apply angle_in_range_spec; assumption).
    all: try (intros [[_ ?]|[? _]]; congruence).
    all: try (intros; congruence).
    all: intros [[? ?] [? ?]]; discriminate.
  - intros H.
    pose proof (H XOrYPresent) as H1. pose proof (H AngleAbsentWithOne) as H2.
    pose proof (H AngleDefinedWithBoth) as H3. pose proof (H AngleInRange) as H4.
    simpl in H1, H2, H3, H4.
    destruct x as [vx|], y as [vy|], angle as [a|]; simpl.
    all: try (assert (angle_in_range a = true) as ->
                by (apply angle_in_range_spec, H4; reflexivity)); simpl.
    all: try reflexivity.
    all: try (exfalso; destruct H1 as [[? ?]|[? ?]]; discriminate).
    all: try (exfalso; destruct H3 as [? ?]; [eauto | discriminate]).
    all: try (exfalso; assert (Some a = None) by (apply H2; eauto); discriminate).
Qed.

Lemma post_init_raises (x y angle : option Number) (n c i : option string) (e : exn) :
  __attrs_post_init__ (mkGuideline x y angle n c i) = Some e ->
  exists r, e = ValueError (Str (rule_message r)) /\ ~ rule_holds r x y angle.
Proof.
  unfold __attrs_post_init__; simpl.
  destruct x as [vx|], y as [vy|], angle as [a|]; simpl.
  all: try (destruct (angle_in_range a) eqn:Hr; simpl).
  all: intros H; simplify_eq.
  - exists AngleInRange. split; [reflexivity|]. simpl. intros H.
    specialize (H a eq_refl). apply angle_in_range_spec in H. congruence.
  - exists AngleDefinedWithBoth. split; [reflexivity|]. simpl. intros H.
    destruct H as [? H]; [eauto | discriminate H].
  - exists AngleAbsentWithOne. split; [reflexivity|]. simpl. intros H.
    discriminate H. left. eauto.
  - exists AngleAbsentWithOne. split; [reflexivity|]. simpl. intros H.
    discriminate H. left. eauto.
  - exists AngleAbsentWithOne. split; [reflexivity|]. simpl. intros H.
    discriminate H. right. eauto.
  - exists AngleAbsentWithOne. split; [reflexivity|]. simpl. intros H.
    discriminate H. right. eauto.
  - exists XOrYPresent. split; [reflexivity|]. simpl. intros [[? ?]|[? ?]]; discriminate.
  - exists XOrYPresent. split; [reflexivity|]. simpl. intros [[? ?]|[? ?]]; discriminate.
  - exists XOrYPresent. split; [reflexivity|]. simpl. intros [[? ?]|[? ?]]; discriminate.
Qed.

Lemma rule_message_inj (r r' : rule) : rule_message r = rule_message r' -> r = r'.
Proof. destruct r, r'; simpl; intros H; try reflexivity; discriminate H. Qed.

(** C8. Building a guideline succeeds exactly when the geometric invariant
    holds (one of x and y at least; with only one of them no angle; with both
    an angle; an angle within 0 and 360, bounds included). A construction that
    fails raises the [ValueError] whose message is that of a rule the
    arguments break, and the four rules have four different messages. The five
    rows of the validity table come out as the specification lists them. *)
Theorem guideline_construction :
  (forall x y angle n c i,
      (exists g, __init__ x y angle n c i = inr g) <-> geometric_invariant x y angle)
  /\ (forall x y angle n c i e,
        __init__ x y angle n c i = inl e ->
        exists r, e = ValueError (Str (rule_message r)) /\ ~ rule_holds r x y angle)
  /\ (forall r r', rule_message r = rule_message r' -> r = r')
  /\ (forall angle n c i,
        __init__ None None angle n c i = inl (ValueError (Str msg_x_or_y)))
  /\ (forall n c i,
        __init__ (Some (of_int 1)) None (Some (of_int 10)) n c i
        = inl (ValueError (Str msg_angle_absent)))
  /\ (forall n c i,
        __init__ (Some (of_int 1)) (Some (of_int 2)) None n c i
        = inl (ValueError (Str msg_angle_defined)))
  /\ (forall n c i,
        __init__ (Some (of_int 1)) (Some (of_int 2)) (Some (of_int 370)) n c i
        = inl (ValueError (Str msg_angle_range)))
  /\ (forall n c i,
        __init__ (Some (of_int 1)) (Some (of_int 2)) (Some (of_int 45)) n c i
        = inr (mkGuideline (Some (of_int 1)) (Some (of_int 2)) (Some (of_int 45)) n c i)).
Proof.
  split; [| split; [| split; [| repeat split]]].
  - intros x y angle n c i. rewrite <- (post_init_ok x y angle n c i).
    unfold __init__.
    destruct (__attrs_post_init__ (mkGuideline x y angle n c i)) as [e|].
    + split; [intros [g Hg]; discriminate Hg | intros H; discriminate H].
    + split; [reflexivity | eauto].
  - intros x y angle n c i e. unfold __init__.
    destruct (__attrs_post_init__ (mkGuideline x y angle n c i)) as [e'|] eqn:He.
    + intros H; simplify_eq. eapply post_init_raises, He.
    + intros H; discriminate H.
  - apply rule_message_inj.
Qed.

End GuidelineFacts.

(** ** Ordered dictionaries *)

Section OrderedDictFacts.
Context {V : Type}.
Implicit Types (d : list (string * V)) (k : string) (v : V).

Lemma od_get_Some_elem d k v : od_get k d = Some v -> (k, v) ∈ d.
Proof.
  induction d as [|[k' v'] d IH]; simpl; [discriminate|].
  case_decide as Hk.
  - intros H; simplify_eq. left.
  - intros H. right. auto.
Qed.

Lemma od_get_None d k : od_get k d = None <-> k ∉ od_keys d.
Proof.
  unfold od_keys. induction d as [|[k' v'] d IH]; simpl.
  - split; [intros _; apply not_elem_of_nil | reflexivity].
  - case_decide as Hk.
    + subst. split; [discriminate | intros H; exfalso; apply H; left].
    + rewrite IH, not_elem_of_cons.
      split; [intros ?; split; [congruence | assumption] | intros [_ ?]; assumption].
Qed.

Lemma od_get_is_Some d k : is_Some (od_get k d) <-> k ∈ od_keys d.
Proof.
  destruct (od_get k d) as [v|] eqn:H.
  - split; [intros _ | eauto].
    destruct (decide (k ∈ od_keys d)) as [|Hn]; [assumption|].
    apply od_get_None in Hn. congruence.
  - apply od_get_None in H. split; [intros [? ?]; discriminate | tauto].
Qed.

Lemma od_contains_true d k : od_contains k d = true <-> k ∈ od_keys d.
Proof. unfold od_contains. apply bool_decide_eq_true. Qed.

Lemma od_contains_false d k : od_contains k d = false <-> k ∉ od_keys d.
Proof. unfold od_contains. apply bool_decide_eq_false. Qed.

Lemma od_keys_set d k v :
  od_keys (od_set k v d) = if decide (k ∈ od_keys d) then od_keys d else od_keys d ++ [k].
Proof.
  unfold od_keys. induction d as [|[k' v'] d IH].
  - destruct (decide (k ∈ ([] : list (string * V)).*1)) as [Hin|Hin]; [|reflexivity].
    apply elem_of_nil in Hin. destruct Hin.
  - cbn [od_set]. destruct (decide (k' = k)) as [->|Hk].
    + rewrite decide_True by (rewrite fmap_cons; left). reflexivity.
    + rewrite !fmap_cons, IH. cbn [fst].
      destruct (decide (k ∈ d.*1)) as [Hin|Hin].
      * rewrite decide_True by (right; assumption). reflexivity.
      * rewrite decide_False; [reflexivity|].
        rewrite not_elem_of_cons. split; [congruence | assumption].
Qed.

Lemma od_keys_set_in d k v : k ∈ od_keys d -> od_keys (od_set k v d) = od_keys d.
Proof. intros H. rewrite od_keys_set, decide_True by assumption. reflexivity. Qed.

Lemma od_get_set d k k' v :
  od_get k' (od_set k v d) = if decide (k = k') then Some v else od_get k' d.
Proof.
  induction d as [|[k0 v0] d IH]; simpl.
  - repeat case_decide; congruence.
  - destruct (decide (k0 = k)) as [->|Hk0]; simpl.
    + repeat case_decide; congruence.
    + rewrite IH. repeat case_decide; congruence.
Qed.

Lemma od_get_set_eq d k v : od_get k (od_set k v d) = Some v.
Proof. rewrite od_get_set, decide_True; reflexivity. Qed.

Lemma od_get_set_ne d k k' v : k ≠ k' -> od_get k' (od_set k v d) = od_get k' d.
Proof. intros H. rewrite od_get_set, decide_False; [reflexivity | assumption]. Qed.

Lemma od_set_id d k v : od_get k d = Some v -> od_set k v d = d.
Proof.
  induction d as [|[k0 v0] d IH]; simpl; [discriminate|].
  case_decide as Hk.
  - intros H; simplify_eq. reflexivity.
  - intros H. rewrite IH by assumption. reflexivity.
Qed.

End OrderedDictFacts.

(** ** The layer set: deletion, construction, reordering *)

(** Unfolds the plumbing of the monad, and nothing of the methods. *)
Ltac monad_unfold :=
  unfold bind, ret, raise, lift, get_self, put_self, emit, alloc, deref, store,
    set_layers, set_defaultLayer, set_reader in *.

Lemma fresh_names_NoDup (seen order : list string) :
  NoDup order -> (forall n, n ∈ order -> n ∉ seen) -> fresh_names seen order = order.
Proof.
  revert seen. induction order as [|n order IH]; intros seen Hnd Hdis; simpl; [reflexivity|].
  apply NoDup_cons in Hnd as [Hn Hnd].
  rewrite decide_False by (apply Hdis; left).
  f_equal. apply IH; [assumption|].
  intros m Hm. rewrite elem_of_app, list_elem_of_singleton.
  intros [Hs| ->]; [| contradiction].
  apply (Hdis m); [right; assumption | assumption].
Qed.

Lemma layerOrder_setter_loop_ok (order : list string) (old layers : list (string * entry))
    (st : St) :
  (forall n, n ∈ order -> n ∈ od_keys old) ->
  exists layers',
    layerOrder_setter_loop order old layers st = (inr layers', st)
    /\ od_keys layers' = od_keys layers ++ fresh_names (od_keys layers) order
    /\ (forall n, od_get n layers' =
                  if decide (n ∈ order) then od_get n old else od_get n layers).
Proof.
  revert layers. induction order as [|name order IH]; intros layers Hin; simpl.
  - exists layers. split; [reflexivity|]. split; [by rewrite app_nil_r|].
    intros n. destruct (decide (n ∈ [])) as [Hn|Hn]; [|reflexivity].
    apply elem_of_nil in Hn. destruct Hn.
  - assert (name ∈ od_keys old) as Hname by (apply Hin; left).
    apply od_get_is_Some in Hname as [v Hv]. rewrite Hv.
    destruct (IH (od_set name v layers)) as (layers' & Hrun & Hkeys & Hget).
    { intros n Hn. apply Hin. right. assumption. }
    exists layers'. split; [assumption|]. split.
    + rewrite Hkeys, od_keys_set.
      destruct (decide (name ∈ od_keys layers)); [reflexivity|].
      by rewrite <- app_assoc.
    + intros n. rewrite Hget, od_get_set.
      destruct (decide (n ∈ order)) as [Hn|Hn].
      * rewrite decide_True by (right; assumption). reflexivity.
      * destruct (decide (name = n)) as [->|Hne].
        -- rewrite decide_True by left. congruence.
        -- rewrite decide_False; [reflexivity|].
           rewrite not_elem_of_cons. split; [congruence | assumption].
Qed.

Lemma set_eq_names (order ks : list string) :
  (list_to_set order : gset string) = list_to_set ks <-> (forall n, n ∈ order <-> n ∈ ks).
Proof.
  split.
  - intros H n. rewrite <- !(elem_of_list_to_set (C := gset string)), H. reflexivity.
  - intros H. apply set_eq. intros n. rewrite !elem_of_list_to_set. apply H.
Qed.

(** C3, as the code has it. The setter of [layerOrder] succeeds exactly when
    the names of the sequence and the existing layer names are the same set;
    a name may come several times. It fails with the [AssertionError] of its
    [assert] otherwise, and then changes nothing. When it succeeds, the
    entries come in the order of the first occurrences in the sequence (the
    sequence itself, when it repeats no name), every name keeps the entry it
    had, pending or loaded, and nothing else of the state changes. *)
Theorem layerOrder_setter_spec (order : list string) (st : St) :
  ((forall n, n ∈ order <-> n ∈ od_keys (_layers (self st))) ->
   exists layers',
     layerOrder_setter order st
     = (inr tt, mkSt (LayerSet.mk layers' (defaultLayer (self st)) (_reader (self st)))
                  (heap st) (trace st))
     /\ od_keys layers' = fresh_names [] order
     /\ (NoDup order -> od_keys layers' = order)
     /\ (forall n, od_get n layers' = od_get n (_layers (self st))))
  /\ (~ (forall n, n ∈ order <-> n ∈ od_keys (_layers (self st))) ->
      layerOrder_setter order st = (inl AssertionError, st)).
Proof.
  unfold layerOrder_setter. split; intros H.
  - destruct (layerOrder_setter_loop_ok order (_layers (self st)) [] st)
      as (layers' & Hrun & Hkeys & Hget).
    { intros n Hn. apply H. assumption. }
    exists layers'. monad_unfold. simpl.
    rewrite bool_decide_eq_true_2 by (apply set_eq_names; assumption).
    simpl. rewrite Hrun. simpl. split; [reflexivity|].
    split; [assumption|]. split.
    + intros Hnd. rewrite Hkeys. simpl. apply fresh_names_NoDup; [assumption|].
      intros n _. apply not_elem_of_nil.
    + intros n. rewrite Hget. destruct (decide (n ∈ order)) as [Hn|Hn]; [reflexivity|].
      simpl. symmetry. apply od_get_None. rewrite <- H. assumption.
  - monad_unfold. simpl.
    rewrite bool_decide_eq_false_2; [reflexivity|].
    intros Heq. apply H, set_eq_names. assumption.
Qed.

Lemma layerOrder_setter_spec_witness :
  exists layers',
    layerOrder_setter ["a"; DEFAULT_LAYER_NAME] two_layers
    = (inr tt, mkSt (LayerSet.mk layers' (Some (LayerRef 0)) None)
                 (heap two_layers) (trace two_layers))
    /\ od_keys layers' = ["a"; DEFAULT_LAYER_NAME]
    /\ od_get "a" layers' = Some (LayerRef 1).
Proof.
  destruct (proj1 (layerOrder_setter_spec ["a"; DEFAULT_LAYER_NAME] two_layers))
    as (layers' & Hrun & Hkeys & _ & Hget).
  - apply set_eq_names. vm_compute. reflexivity.
  - exists layers'. split; [exact Hrun|]. split; [exact Hkeys|]. exact (Hget "a").
Defined.

(** C3, as the claim words it, fails: a sequence that repeats a name is no
    permutation of the layer names, and the setter takes it. *)
Lemma layerOrder_setter_accepts_repeats :
  (layerOrder_setter ["a"; DEFAULT_LAYER_NAME; "a"] two_layers).1 = inr tt
  /\ ~ Permutation ["a"; DEFAULT_LAYER_NAME; "a"] (od_keys (_layers (self two_layers))).
Proof.
  split; [vm_compute; reflexivity|].
  intros H. apply Permutation_length in H. discriminate H.
Qed.

(** C4. Deleting the name of the default layer raises the [KeyError] that
    says the default layer cannot be deleted, whatever the set holds, and the
    state it leaves is the state it found: the entry is still there. *)
Theorem delete_default_fails (st : St) (l : loc) (L : Layer.Layer) :
  defaultLayer (self st) = Some (LayerRef l) ->
  heap st !! l = Some L ->
  __delitem__ (Layer._name L) st
  = (inl (KeyError (Fmt "cannot delete default layer %r" (ArgStr (Layer._name L)))), st).
Proof.
  intros Hd Hl. unfold __delitem__, defaultLayer_name. monad_unfold.
  rewrite Hd, Hl. rewrite decide_True by reflexivity. reflexivity.
Qed.

Lemma delete_default_fails_witness :
  __delitem__ DEFAULT_LAYER_NAME two_layers
  = (inl (KeyError (Fmt "cannot delete default layer %r" (ArgStr DEFAULT_LAYER_NAME))),
     two_layers).
Proof.
  apply (delete_default_fails two_layers 0%nat (Layer.mk DEFAULT_LAYER_NAME ∅));
    reflexivity.
Defined.

(** C10. Building a layer set from exactly one layer and no default layer
    raises a [TypeError], whatever the name of the layer: [next] is given the
    values view of the dictionary, which is no iterator. No default layer has
    been chosen when it raises. This holds for an iterable of one layer and
    for an [OrderedDict] of one entry. *)
Theorem single_layer_without_default_raises :
  (forall (st : St) (l : loc) (L : Layer.Layer),
      heap st !! l = Some L ->
      exists st',
        __init__ (AnIterable [ItemLayer l]) None st
        = (inl (TypeError (Str "'odict_values' object is not an iterator")), st')
        /\ _layers (self st') = [(Layer._name L, LayerRef l)]
        /\ defaultLayer (self st') = None)
  /\ (forall (st : St) (k : string) (e : entry),
        exists st',
          __init__ (AnOrderedDict [(k, e)]) None st
          = (inl (TypeError (Str "'odict_values' object is not an iterator")), st')
          /\ defaultLayer (self st') = None).
Proof.
  split.
  - intros st l L Hl. eexists. unfold __init__, _convert_layers. simpl.
    unfold __attrs_post_init__. monad_unfold. rewrite Hl. simpl.
    split; [reflexivity|]. split; reflexivity.
  - intros st k e. eexists. unfold __init__, _convert_layers. simpl.
    unfold __attrs_post_init__. monad_unfold. simpl.
    split; reflexivity.
Qed.

Lemma single_layer_without_default_raises_witness :
  exists st',
    __init__ (AnIterable [ItemLayer 0%nat]) None two_layers
    = (inl (TypeError (Str "'odict_values' object is not an iterator")), st')
    /\ _layers (self st') = [(DEFAULT_LAYER_NAME, LayerRef 0)]
    /\ defaultLayer (self st') = None.
Proof.
  apply (proj1 single_layer_without_default_raises two_layers 0%nat
           (Layer.mk DEFAULT_LAYER_NAME ∅)).
  reflexivity.
Defined.

(** C2, where the code breaks it. In a set of two loaded layers whose default
    is the first, renaming the second to the name of the first with
    [overwrite=True] returns normally; the entry of the default layer is then
    the renamed layer, while [defaultLayer] still is the object that was
    overwritten, which is in the set no more. *)
Theorem renameLayer_overwrite_drops_default :
  default_in_set two_layers = true
  /\ exists st',
      renameLayer "a" DEFAULT_LAYER_NAME true two_layers = (inr tt, st')
      /\ _layers (self st') = [(DEFAULT_LAYER_NAME, LayerRef 1)]
      /\ defaultLayer (self st') = Some (LayerRef 0)
      /\ default_in_set st' = false.
Proof.
  split; [reflexivity|]. eexists. split; [vm_compute; reflexivity|].
  split; [reflexivity|]. split; reflexivity.
Qed.

(** ** Loading a pending entry *)

Section Loading.
Implicit Types (st : St) (n name : string).

Lemma extends_refl st : extends st st.
Proof. split; auto. Qed.

Lemma extends_trans st1 st2 st3 : extends st1 st2 -> extends st2 st3 -> extends st1 st3.
Proof.
  intros H12 H23. split.
  - rewrite (ext_keys _ _ H23). apply (ext_keys _ _ H12).
  - rewrite (ext_default _ _ H23). apply (ext_default _ _ H12).
  - rewrite (ext_reader _ _ H23). apply (ext_reader _ _ H12).
  - intros n l Hn. apply (ext_loaded _ _ H23), (ext_loaded _ _ H12), Hn.
  - etrans; [apply (ext_heap _ _ H12) | apply (ext_heap _ _ H23)].
  - intros n. rewrite (ext_glyphs _ _ H23). apply (ext_glyphs _ _ H12).
  - etrans; [apply (ext_trace _ _ H12) | apply (ext_trace _ _ H23)].
Qed.

Lemma in_layer_extends st st' g n : extends st st' -> in_layer st' g n = in_layer st g n.
Proof. intros H. unfold in_layer. rewrite (ext_glyphs _ _ H). reflexivity. Qed.

Lemma Forall_od_set {V} (P : string * V -> Prop) (d : list (string * V)) k v :
  Forall P d -> P (k, v) -> Forall P (od_set k v d).
Proof.
  intros Hd Hkv. induction Hd as [|[k' v'] d Hp Hd IH]; simpl.
  - constructor; [assumption | constructor].
  - case_decide; constructor; assumption.
Qed.

Lemma wf_lookup st n e : wf st -> od_get n (_layers (self st)) = Some e -> entry_ok st e.
Proof.
  intros [_ H] Hget. apply od_get_Some_elem in Hget.
  rewrite Forall_forall in H. exact (H _ Hget).
Qed.

Lemma loadLayer_pending st reader n lazy default :
  _reader (self st) = Some reader ->
  od_get n (_layers (self st)) = Some NOT_LOADED ->
  loadLayer n lazy default st = (inr (length (heap st)), loaded st reader n lazy default).
Proof.
  intros Hr Hn. unfold loadLayer, _loadLayer. monad_unfold. simpl. rewrite Hr.
  assert (od_contains n (_layers (self st)) = true) as ->.
  { apply od_contains_true, od_get_is_Some. eauto. }
  simpl. unfold loaded, load_events. rewrite <- app_assoc. reflexivity.
Qed.

Lemma loaded_wf st reader n lazy default :
  wf st -> od_get n (_layers (self st)) = Some NOT_LOADED ->
  wf (loaded st reader n lazy default).
Proof.
  intros [Hk He] Hn. split; simpl.
  - rewrite od_keys_set_in; [assumption|]. apply od_get_is_Some. eauto.
  - apply Forall_od_set.
    + eapply Forall_impl; [exact He|]. intros [k [|l]]; simpl; [auto|].
      rewrite length_app. lia.
    + simpl. rewrite length_app. simpl. lia.
Qed.

Lemma loaded_extends st reader n lazy default :
  wf st -> _reader (self st) = Some reader ->
  od_get n (_layers (self st)) = Some NOT_LOADED ->
  extends st (loaded st reader n lazy default).
Proof.
  intros Hwf Hr Hn. split; simpl; try reflexivity.
  - apply od_keys_set_in, od_get_is_Some. eauto.
  - intros m l Hm. rewrite od_get_set_ne; [assumption | congruence].
  - apply prefix_app_r. reflexivity.
  - intros m. unfold glyphs_at. simpl. rewrite od_get_set.
    destruct (decide (n = m)) as [<-|Hne].
    + rewrite Hn. simpl. rewrite Hr. simpl.
      rewrite lookup_app_r, Nat.sub_diag by lia. reflexivity.
    + destruct (od_get m (_layers (self st))) as [[|l]|] eqn:Hm; simpl; try reflexivity.
      apply (wf_lookup _ _ _ Hwf) in Hm. simpl in Hm.
      rewrite lookup_app_l by assumption. reflexivity.
  - apply prefix_app_r. reflexivity.
Qed.

(** One round of [__iter__]: the layer it yields is an object of the heap that
    holds the glyphs of the layer of that name. *)
Lemma iter_step_spec st n :
  wf st -> n ∈ od_keys (_layers (self st)) ->
  exists l L st',
    __iter__step n st = (inr l, st')
    /\ heap st' !! l = Some L
    /\ glyphs_at st n = Some (Layer._glyphs L)
    /\ wf st' /\ extends st st'.
Proof.
  intros Hwf Hin. apply od_get_is_Some in Hin as [e He].
  pose proof (wf_lookup _ _ _ Hwf He) as Hok.
  unfold __iter__step. monad_unfold. rewrite He.
  destruct e as [|l]; simpl in Hok.
  - destruct Hok as [reader Hr].
    rewrite (loadLayer_pending _ reader) by assumption.
    eexists _, _, _. split; [reflexivity|]. split.
    { simpl. rewrite lookup_app_r, Nat.sub_diag by lia. reflexivity. }
    split.
    { unfold glyphs_at. rewrite He. simpl. rewrite Hr. reflexivity. }
    split; [by apply loaded_wf | by apply loaded_extends].
  - apply lookup_lt_is_Some in Hok as [L HL].
    exists l, L, st. split; [reflexivity|]. split; [assumption|]. split.
    { unfold glyphs_at. rewrite He. unfold mbind, option_bind, entry_glyphs.
      rewrite HL. reflexivity. }
    split; [assumption | apply extends_refl].
Qed.

End Loading.

(** ** Renaming a glyph *)

Section RenameGlyph.
Implicit Types (st : St) (n name newName : string).

Lemma existsb_in_layer_extends st st' g (names : list string) :
  extends st st' -> existsb (in_layer st' g) names = existsb (in_layer st g) names.
Proof.
  intros H. induction names as [|n names IH]; simpl; [reflexivity|].
  rewrite IH, (in_layer_extends _ _ _ _ H). reflexivity.
Qed.

Lemma existsb_in_layer_true st g (names : list string) :
  existsb (in_layer st g) names = true <-> exists n, n ∈ names /\ in_layer st g n = true.
Proof.
  rewrite existsb_exists. split; intros (n & Hn & Hg); exists n.
  - split; [apply list_elem_of_In |]; assumption.
  - split; [apply list_elem_of_In |]; assumption.
Qed.

Lemma existsb_in_layer_false st g (names : list string) :
  existsb (in_layer st g) names = false <-> forall n, n ∈ names -> in_layer st g n = false.
Proof.
  split.
  - intros H n Hn. destruct (in_layer st g n) eqn:Hg; [|reflexivity].
    rewrite <- H. symmetry. apply existsb_in_layer_true. eauto.
  - intros H. destruct (existsb (in_layer st g) names) eqn:He; [|reflexivity].
    apply existsb_in_layer_true in He as (n & Hn & Hg). rewrite <- Hg. auto.
Qed.

(** What a round of the iteration and the membership test that follows it
    give: the answer is that of [in_layer] in the state before. *)
Lemma iter_step_contains st n g :
  wf st -> n ∈ od_keys (_layers (self st)) ->
  exists l st',
    __iter__step n st = (inr l, st')
    /\ layer_contains l g st' = (inr (in_layer st g n), st')
    /\ wf st' /\ extends st st'.
Proof.
  intros Hwf Hin.
  destruct (iter_step_spec st n Hwf Hin) as (l & L & st' & Hstep & HL & Hg & Hwf' & Hext).
  exists l, st'. split; [assumption|]. split; [|split; assumption].
  unfold layer_contains. monad_unfold. rewrite HL.
  unfold in_layer. rewrite Hg. reflexivity.
Qed.

Lemma any_layer_in_spec g (names : list string) st :
  wf st -> (forall n, n ∈ names -> n ∈ od_keys (_layers (self st))) ->
  exists st',
    any_layer_in names (fun layer => layer_contains layer g) st
    = (inr (existsb (in_layer st g) names), st')
    /\ wf st' /\ extends st st'.
Proof.
  revert st. induction names as [|n names IH]; intros st Hwf Hin; simpl.
  - exists st. split; [reflexivity|]. split; [assumption | apply extends_refl].
  - destruct (iter_step_contains st n g Hwf) as (l & st1 & Hstep & Hc & Hwf1 & Hext1).
    { apply Hin. left. }
    unfold bind at 1. rewrite Hstep. unfold bind at 1. rewrite Hc.
    destruct (in_layer st g n); simpl.
    + exists st1. split; [reflexivity|]. split; assumption.
    + destruct (IH st1 Hwf1) as (st' & Hrun & Hwf' & Hext').
      { intros m Hm. rewrite (ext_keys _ _ Hext1). apply Hin. right. assumption. }
      exists st'. rewrite Hrun, (existsb_in_layer_extends _ _ _ _ Hext1).
      split; [reflexivity|]. split; [assumption|]. eapply extends_trans; eassumption.
Qed.

Lemma prepare_no_overwrite_step g l st (b : bool) :
  layer_contains l g st = (inr b, st) ->
  renameGlyph_prepare g false l st
  = (if b then inl (KeyError (Fmt "target name %r already exists" (ArgStr g)))
     else inr tt, st).
Proof.
  intros H. unfold renameGlyph_prepare, bind. rewrite H. destruct b; reflexivity.
Qed.

Lemma prepare_no_overwrite_spec g (names : list string) st :
  wf st -> (forall n, n ∈ names -> n ∈ od_keys (_layers (self st))) ->
  exists st',
    for_layer_in names (renameGlyph_prepare g false) st
    = (if existsb (in_layer st g) names
       then inl (KeyError (Fmt "target name %r already exists" (ArgStr g)))
       else inr tt, st')
    /\ wf st' /\ extends st st'.
Proof.
  revert st. induction names as [|n names IH]; intros st Hwf Hin; simpl.
  - exists st. split; [reflexivity|]. split; [assumption | apply extends_refl].
  - destruct (iter_step_contains st n g Hwf) as (l & st1 & Hstep & Hc & Hwf1 & Hext1).
    { apply Hin. left. }
    apply prepare_no_overwrite_step in Hc.
    unfold bind at 1. rewrite Hstep. unfold bind at 1. rewrite Hc.
    destruct (in_layer st g n); simpl.
    + exists st1. split; [reflexivity|]. split; assumption.
    + destruct (IH st1 Hwf1) as (st' & Hrun & Hwf' & Hext').
      { intros m Hm. rewrite (ext_keys _ _ Hext1). apply Hin. right. assumption. }
      exists st'. rewrite Hrun, (existsb_in_layer_extends _ _ _ _ Hext1).
      split; [reflexivity|]. split; [assumption|]. eapply extends_trans; eassumption.
Qed.

Lemma example_lazy_layers :
  _layers (self example_lazy)
  = [(DEFAULT_LAYER_NAME, LayerRef 0); ("bg", NOT_LOADED); ("fg", NOT_LOADED)].
Proof. vm_compute. reflexivity. Qed.

Lemma example_lazy_reader : _reader (self example_lazy) = Some example_store.
Proof. reflexivity. Qed.

Lemma example_lazy_wf : wf example_lazy.
Proof.
  split.
  - rewrite example_lazy_layers.
    apply (bool_decide_unpack (NoDup [DEFAULT_LAYER_NAME; "bg"; "fg"])).
    vm_compute. exact I.
  - rewrite example_lazy_layers. repeat constructor; simpl; eauto.
Qed.

(** C9, as the code has it. When the two names differ and no layer of the
    set holds [name], [renameGlyph] raises the [KeyError] that says the name
    is not in the layer set, whatever [overwrite] is. The state it leaves has
    the same layers in the same order, the same default layer and the same
    glyphs in every layer; the iteration has loaded the entries that were
    pending, and that is all that happened. *)
Theorem renameGlyph_missing (name newName : string) (overwrite : bool) (st : St) :
  wf st -> name ≠ newName ->
  (forall n, n ∈ od_keys (_layers (self st)) -> in_layer st name n = false) ->
  exists st',
    renameGlyph name newName overwrite st
    = (inl (KeyError (Fmt "name %r is not in layer set" (ArgStr name))), st')
    /\ extends st st'.
Proof.
  intros Hwf Hne Habs. unfold renameGlyph. rewrite decide_False by assumption.
  destruct (any_layer_in_spec name (od_keys (_layers (self st))) st Hwf)
    as (st' & Hany & _ & Hext); [auto|].
  apply existsb_in_layer_false in Habs. rewrite Habs in Hany.
  exists st'. split; [|assumption].
  unfold bind at 1. unfold any_layer_in_self, bind at 1, get_self.
  rewrite Hany. reflexivity.
Qed.

Lemma renameGlyph_missing_witness :
  exists st',
    renameGlyph "z" "b" false example_lazy
    = (inl (KeyError (Fmt "name %r is not in layer set" (ArgStr "z"))), st')
    /\ extends example_lazy st'.
Proof.
  apply (renameGlyph_missing "z" "b" false example_lazy).
  - exact example_lazy_wf.
  - discriminate.
  - apply existsb_in_layer_false. vm_compute. reflexivity.
Defined.

(** C9, as the claim words it, fails when the two names are the same: the
    call returns at once and raises nothing, though no layer holds the name. *)
Lemma renameGlyph_same_name_returns :
  (forall n, n ∈ od_keys (_layers (self example_lazy)) -> in_layer example_lazy "z" n = false)
  /\ renameGlyph "z" "z" true example_lazy = (inr tt, example_lazy).
Proof.
  split; [|reflexivity].
  apply existsb_in_layer_false. vm_compute. reflexivity.
Qed.

(** C1, as the code has it. When the two names differ, some layer holds
    [name] and some layer holds [newName], [renameGlyph] without [overwrite]
    raises the [KeyError] that says the target name already exists. The state
    it leaves has the same layers in the same order, the same default layer
    and the same glyphs in every layer: no layer has been changed in part. *)
Theorem renameGlyph_conflict (name newName : string) (st : St) :
  wf st -> name ≠ newName ->
  (exists n, n ∈ od_keys (_layers (self st)) /\ in_layer st name n = true) ->
  (exists n, n ∈ od_keys (_layers (self st)) /\ in_layer st newName n = true) ->
  exists st',
    renameGlyph name newName false st
    = (inl (KeyError (Fmt "target name %r already exists" (ArgStr newName))), st')
    /\ extends st st'.
Proof.
  intros Hwf Hne Hold Hnew. unfold renameGlyph. rewrite decide_False by assumption.
  destruct (any_layer_in_spec name (od_keys (_layers (self st))) st Hwf)
    as (st1 & Hany & Hwf1 & Hext1); [auto|].
  apply existsb_in_layer_true in Hold. rewrite Hold in Hany.
  destruct (prepare_no_overwrite_spec newName (od_keys (_layers (self st1))) st1 Hwf1)
    as (st2 & Hprep & _ & Hext2); [auto|].
  rewrite (existsb_in_layer_extends _ _ _ _ Hext1), (ext_keys _ _ Hext1) in Hprep.
  apply existsb_in_layer_true in Hnew. rewrite Hnew in Hprep.
  exists st2. split; [|eapply extends_trans; eassumption].
  unfold bind at 1. unfold any_layer_in_self, bind at 1, get_self.
  rewrite Hany. simpl.
  unfold bind at 1. unfold for_layer_in_self, bind at 1, get_self.
  rewrite (ext_keys _ _ Hext1), Hprep. reflexivity.
Qed.

Lemma renameGlyph_conflict_witness :
  exists st',
    renameGlyph "a" "b" false example_lazy
    = (inl (KeyError (Fmt "target name %r already exists" (ArgStr "b"))), st')
    /\ extends example_lazy st'.
Proof.
  apply (renameGlyph_conflict "a" "b" example_lazy).
  - exact example_lazy_wf.
  - discriminate.
  - apply existsb_in_layer_true. vm_compute. reflexivity.
  - apply existsb_in_layer_true. vm_compute. reflexivity.
Defined.

(** C1, as the claim words it, fails when no layer holds the old name: the
    new name is taken in a layer, and the error is the one of the missing
    name, not the one of the taken name. *)
Lemma renameGlyph_conflict_needs_source :
  "z" ≠ "b"
  /\ (exists n, n ∈ od_keys (_layers (self example_lazy)) /\ in_layer example_lazy "b" n = true)
  /\ (renameGlyph "z" "b" false example_lazy).1
     = inl (KeyError (Fmt "name %r is not in layer set" (ArgStr "z")))
  /\ (renameGlyph "z" "b" false example_lazy).1
     ≠ inl (KeyError (Fmt "target name %r already exists" (ArgStr "b"))).
Proof.
  split; [discriminate|]. split.
  { apply existsb_in_layer_true. vm_compute. reflexivity. }
  assert ((renameGlyph "z" "b" false example_lazy).1
          = inl (KeyError (Fmt "name %r is not in layer set" (ArgStr "z")))) as E
    by (vm_compute; reflexivity).
  split; [exact E|]. rewrite E. discriminate.
Qed.

End RenameGlyph.

(** ** Reading lazily, then getting a layer *)

Section ReadAndGet.
Implicit Types (st : St) (n name : string).

Lemma loadLayer_self reader n lazy default st :
  exists st', _loadLayer reader n lazy default st = (inr (length (heap st)), st')
              /\ self st' = self st.
Proof. eexists. unfold _loadLayer. monad_unfold. simpl. split; reflexivity. Qed.

Lemma read_loop_lazy reader dn (names : list string) layers dflt st :
  exists layers' dflt' st',
    read_loop reader true dn names layers dflt st = (inr (layers', dflt'), st')
    /\ self st' = self st
    /\ (forall n, n ≠ dn ->
          od_get n layers' = if decide (n ∈ names) then Some NOT_LOADED else od_get n layers)
    /\ (dn ∈ names \/ (exists l, dflt = Some (LayerRef l) /\ od_get dn layers = Some (LayerRef l)) ->
        exists l, dflt' = Some (LayerRef l) /\ od_get dn layers' = Some (LayerRef l)).
Proof.
  revert layers dflt st. induction names as [|a names IH]; intros layers dflt st.
  - exists layers, dflt, st. split; [reflexivity|]. split; [reflexivity|]. split.
    + intros n _. destruct (decide (n ∈ [])) as [Hn|]; [|reflexivity].
      apply elem_of_nil in Hn. destruct Hn.
    + intros [Hn|H]; [|assumption]. apply elem_of_nil in Hn. destruct Hn.
  - cbn [read_loop]. destruct (decide (a = dn)) as [->|Hne].
    + rewrite bool_decide_eq_true_2 by reflexivity. cbn [orb].
      destruct (loadLayer_self reader dn true true st) as (st1 & Hload & Hself).
      unfold bind at 1. rewrite Hload.
      destruct (IH (od_set dn (LayerRef (length (heap st))) layers)
                   (Some (LayerRef (length (heap st)))) st1)
        as (layers' & dflt' & st' & Hrun & Hself' & Hother & Hdn).
      exists layers', dflt', st'. split; [assumption|]. split; [congruence|]. split.
      * intros n Hn. rewrite Hother, od_get_set_ne by congruence.
        destruct (decide (n ∈ names)) as [Hin|Hin].
        -- rewrite decide_True by (right; assumption). reflexivity.
        -- rewrite decide_False; [reflexivity|].
           rewrite not_elem_of_cons. split; assumption.
      * intros _. apply Hdn. right. eexists. split; [reflexivity|]. apply od_get_set_eq.
    + rewrite bool_decide_eq_false_2 by assumption. cbn [orb negb].
      destruct (IH (od_set a NOT_LOADED layers) dflt st)
        as (layers' & dflt' & st' & Hrun & Hself' & Hother & Hdn).
      exists layers', dflt', st'. split; [assumption|]. split; [assumption|]. split.
      * intros n Hn. rewrite Hother by assumption. rewrite od_get_set.
        destruct (decide (n ∈ names)) as [Hin|Hin].
        -- rewrite decide_True by (right; assumption). reflexivity.
        -- destruct (decide (a = n)) as [->|Han].
           ++ rewrite decide_True by left. reflexivity.
           ++ rewrite decide_False; [reflexivity|].
              rewrite not_elem_of_cons. split; [congruence | assumption].
      * intros H. apply Hdn. destruct H as [Hin|(l & Hd & Hl)].
        -- left. apply elem_of_cons in Hin as [Heq|Hin]; [congruence | assumption].
        -- right. exists l. split; [assumption|]. rewrite od_get_set_ne; assumption.
Qed.

Lemma od_get_in_values (d : list (string * entry)) k v :
  od_get k d = Some v -> existsb (fun layer => entry_is layer v) (od_values d) = true.
Proof.
  intros H. apply od_get_Some_elem in H. apply existsb_exists. exists v. split.
  - apply list_elem_of_In. unfold od_values.
    apply (list_elem_of_fmap_2 snd) in H. exact H.
  - unfold entry_is. apply bool_decide_eq_true_2. reflexivity.
Qed.

(** A lazy read of a store whose default layer is one of its layers leaves a
    layer set that keeps the reader, has the default layer loaded and every
    other layer of the store pending. *)
Lemma read_lazy_spec reader st0 :
  getDefaultLayerName reader ∈ getLayerNames reader ->
  exists st1 l,
    read reader true st0 = (inr tt, st1)
    /\ _reader (self st1) = Some reader
    /\ defaultLayer (self st1) = Some (LayerRef l)
    /\ od_get (getDefaultLayerName reader) (_layers (self st1)) = Some (LayerRef l)
    /\ (forall n, n ≠ getDefaultLayerName reader ->
          od_get n (_layers (self st1))
          = if decide (n ∈ getLayerNames reader) then Some NOT_LOADED else None).
Proof.
  intros Hd. unfold read.
  destruct (read_loop_lazy reader (getDefaultLayerName reader) (getLayerNames reader)
              [] None st0) as (layers' & dflt' & st' & Hrun & Hself & Hother & Hdn).
  destruct Hdn as (l & -> & Hl); [left; assumption|].
  unfold bind at 1. rewrite Hrun. cbn [fst snd].
  unfold __init__, _convert_layers, __attrs_post_init__. monad_unfold. simpl.
  destruct layers' as [|p rest] eqn:Hlayers; [discriminate Hl|].
  rewrite <- Hlayers in *. simpl.
  rewrite (od_get_in_values _ _ _ Hl). simpl.
  eexists _, l. split; [reflexivity|]. simpl.
  split; [reflexivity|]. split; [reflexivity|]. split; [assumption|].
  intros n Hn. rewrite Hother by assumption. reflexivity.
Qed.

Lemma getitem_loaded st n l :
  od_get n (_layers (self st)) = Some (LayerRef l) -> __getitem__ n st = (inr l, st).
Proof. intros H. unfold __getitem__. monad_unfold. rewrite H. reflexivity. Qed.

Lemma getitem_pending st reader n :
  _reader (self st) = Some reader ->
  od_get n (_layers (self st)) = Some NOT_LOADED ->
  __getitem__ n st = (inr (length (heap st)), loaded st reader n true false).
Proof.
  intros Hr H. unfold __getitem__. unfold bind, get_self. rewrite H.
  apply loadLayer_pending; assumption.
Qed.

Lemma getitem_absent st n :
  n ∉ od_keys (_layers (self st)) -> __getitem__ n st = (inl (KeyError (Key n)), st).
Proof.
  intros H. apply od_get_None in H. unfold __getitem__. monad_unfold. rewrite H.
  reflexivity.
Qed.

Lemma getitem_times_loaded st n l (times : nat) :
  od_get n (_layers (self st)) = Some (LayerRef l) ->
  getitem_times n times st = (inr (replicate times l), st).
Proof.
  intros H. induction times as [|times IH]; simpl; [reflexivity|].
  unfold bind at 1. rewrite (getitem_loaded _ _ _ H).
  unfold bind at 1. rewrite IH. reflexivity.
Qed.

Lemma od_set_in_place {V} (d : list (string * V)) k v v' :
  od_get k d = Some v ->
  exists before after,
    d = (before ++ ((k, v) :: after))
    /\ (k ∉ od_keys before)
    /\ od_set k v' d = (before ++ ((k, v') :: after)).
Proof.
  induction d as [|[k0 v0] d IH]; simpl; [discriminate|].
  destruct (decide (k0 = k)) as [->|Hne].
  - intros H; simplify_eq. exists [], d. split; [reflexivity|].
    split; [apply not_elem_of_nil | reflexivity].
  - intros H. destruct (IH H) as (before & after & -> & Hk & Hset).
    exists ((k0, v0) :: before), after. split; [reflexivity|]. split.
    + unfold od_keys. rewrite fmap_cons. apply not_elem_of_cons.
      split; [simpl; intros Heq; apply Hne; symmetry; exact Heq | assumption].
    + rewrite Hset. reflexivity.
Qed.

(** C5. After a lazy read, getting a layer that is not the default one any
    number of times (once at least) asks the reader once: the first call
    loads the layer, which is two events (the glyph set is requested from the
    reader, the layer is read from it), and puts it in place of the pending
    entry: the dictionary of layers is what it was with that one entry
    replaced where it stood, so the names, their order and every other entry
    are as before, and so are the default layer, the reader and the objects
    the heap held. Every call returns that same layer, and further calls
    leave the state, the trace with it, as it is. Getting a name the set does
    not have raises [KeyError], in any state. *)
Theorem getitem_loads_once :
  (forall (reader : Store) (st0 : St) (name : string) (times : nat),
      getDefaultLayerName reader ∈ getLayerNames reader ->
      name ∈ getLayerNames reader ->
      name ≠ getDefaultLayerName reader ->
      exists st1 st2 l,
        read reader true st0 = (inr tt, st1)
        /\ od_get name (_layers (self st1)) = Some NOT_LOADED
        /\ getitem_times name (S times) st1 = (inr (replicate (S times) l), st2)
        /\ trace st2 = trace st1 ++ load_events reader name true false l
        /\ heap st2 !! l = Some (Layer.mk name (glyphSet reader name))
        /\ od_get name (_layers (self st2)) = Some (LayerRef l)
        /\ (forall more, getitem_times name more st2 = (inr (replicate more l), st2))
        /\ (exists before after,
              _layers (self st1) = (before ++ ((name, NOT_LOADED) :: after))
              /\ (name ∉ od_keys before)
              /\ _layers (self st2) = (before ++ ((name, LayerRef l) :: after)))
        /\ od_keys (_layers (self st2)) = od_keys (_layers (self st1))
        /\ (forall n, n ≠ name ->
              od_get n (_layers (self st2)) = od_get n (_layers (self st1)))
        /\ defaultLayer (self st2) = defaultLayer (self st1)
        /\ _reader (self st2) = _reader (self st1)
        /\ heap st2 = heap st1 ++ [Layer.mk name (glyphSet reader name)])
  /\ (forall (st : St) (name : string),
        name ∉ od_keys (_layers (self st)) ->
        __getitem__ name st = (inl (KeyError (Key name)), st)).
Proof.
  split; [|apply getitem_absent].
  intros reader st0 name times Hd Hin Hne.
  destruct (read_lazy_spec reader st0 Hd) as (st1 & ld & Hread & Hr & _ & _ & Hother).
  specialize (Hother name Hne). rewrite decide_True in Hother by assumption.
  exists st1, (loaded st1 reader name true false), (length (heap st1)).
  assert (od_get name (_layers (self (loaded st1 reader name true false)))
          = Some (LayerRef (length (heap st1)))) as Hloaded by apply od_get_set_eq.
  split; [assumption|]. split; [assumption|]. split.
  { cbn [getitem_times]. unfold bind at 1.
    rewrite (getitem_pending _ reader) by assumption.
    unfold bind at 1. rewrite (getitem_times_loaded _ _ _ _ Hloaded). reflexivity. }
  split; [reflexivity|]. split.
  { simpl. rewrite lookup_app_r, Nat.sub_diag by lia. reflexivity. }
  split; [assumption|]. split.
  { intros more. apply getitem_times_loaded. assumption. }
  split.
  { destruct (od_set_in_place (_layers (self st1)) name NOT_LOADED
                (LayerRef (length (heap st1))) Hother)
      as (before & after & Hsplit & Hk & Hset).
    exists before, after. split; [assumption|]. split; [assumption|]. exact Hset. }
  split.
  { simpl. apply od_keys_set_in, od_get_is_Some. eauto. }
  split.
  { intros n Hn. simpl. apply od_get_set_ne. congruence. }
  split; [reflexivity|]. split; reflexivity.
Qed.

Lemma getitem_loads_once_witness :
  exists st1 st2 l,
    read example_store true blank = (inr tt, st1)
    /\ od_get "bg" (_layers (self st1)) = Some NOT_LOADED
    /\ getitem_times "bg" 3 st1 = (inr [l; l; l], st2)
    /\ trace st2 = trace st1 ++ load_events example_store "bg" true false l
    /\ od_keys (_layers (self st2)) = od_keys (_layers (self st1))
    /\ (exists before after,
          _layers (self st1) = (before ++ (("bg", NOT_LOADED) :: after))
          /\ ("bg" ∉ od_keys before)
          /\ _layers (self st2) = (before ++ (("bg", LayerRef l) :: after))).
Proof.
  destruct (proj1 getitem_loads_once example_store blank "bg" 2%nat)
    as (st1 & st2 & l & H1 & H2 & H3 & H4 & _ & _ & _ & H5 & H6 & _).
  - apply list_elem_of_In. simpl. tauto.
  - apply list_elem_of_In. simpl. tauto.
  - discriminate.
  - exists st1, st2, l. split; [assumption|]. split; [assumption|].
    split; [assumption|]. split; [assumption|]. split; assumption.
Defined.

End ReadAndGet.

(** ** Writing *)

Section Write.
Implicit Types (st : St) (n name : string).

Lemma delete_glyph_sets_spec writer (names : list string) st :
  delete_glyph_sets writer names st
  = (inr tt, mkSt (self st) (heap st)
               (trace st ++ (EvDeleteGlyphSet (store_id writer) <$> names))).
Proof.
  revert st. induction names as [|n names IH]; intros [s h t]; simpl.
  - rewrite app_nil_r. reflexivity.
  - unfold bind, emit. simpl. rewrite IH. simpl. rewrite <- app_assoc. reflexivity.
Qed.

Lemma deleted_layers_spec writer (layers : list (string * entry)) :
  NoDup (deleted_layers writer layers)
  /\ (forall n, n ∈ deleted_layers writer layers
                <-> n ∈ getLayerNames writer /\ n ∉ od_keys layers).
Proof.
  unfold deleted_layers. split; [apply NoDup_elements|].
  intros n. rewrite elem_of_elements, elem_of_difference, !elem_of_list_to_set.
  reflexivity.
Qed.

Lemma write_layers_in_place writer dflt (names : list string) st :
  (forall n, n ∈ names -> n ∈ od_keys (_layers (self st))) ->
  write_layers writer false dflt names st
  = (inr tt, mkSt (self st) (heap st)
               (trace st ++ flat_map (in_place_events writer (_layers (self st)) dflt) names)).
Proof.
  revert st. induction names as [|n names IH]; intros [s h t] Hin; simpl in *.
  - rewrite app_nil_r. reflexivity.
  - assert (n ∈ od_keys (_layers s)) as Hn by (apply Hin; left).
    apply od_get_is_Some in Hn as [e He].
    unfold bind at 1. unfold write_layer, in_place_events. monad_unfold. simpl.
    rewrite He. destruct e as [|l]; simpl.
    + rewrite IH by (intros m Hm; apply Hin; right; assumption). reflexivity.
    + rewrite IH by (intros m Hm; apply Hin; right; assumption). simpl.
      rewrite <- !app_assoc. reflexivity.
Qed.

(** C6. A write with [saveAs] false (given so, or left out when the writer
    is the reader the set was read from) asks the writer to delete the names
    it lists that are no layer of the set, each once; then, going through the
    layers in order, it writes the loaded ones and passes over the pending
    ones; then it commits the order of the layers. The layer set and the heap
    are as before: nothing was loaded, and no event is a read. *)
Theorem write_in_place (writer : Store) (saveAs : option bool) (st : St) :
  saveAs = Some false
  \/ (saveAs = None /\ exists reader, _reader (self st) = Some reader
                                   /\ store_id reader = store_id writer) ->
  exists deleted written,
    write writer saveAs st
    = (inr tt, mkSt (self st) (heap st)
                 (trace st ++ (EvDeleteGlyphSet (store_id writer) <$> deleted)
                    ++ written
                    ++ [EvWriteLayerContents (store_id writer) (od_keys (_layers (self st)))]))
    /\ NoDup deleted
    /\ (forall n, n ∈ deleted <-> n ∈ getLayerNames writer /\ n ∉ od_keys (_layers (self st)))
    /\ written = flat_map (in_place_events writer (_layers (self st)) (defaultLayer (self st)))
                   (od_keys (_layers (self st)))
    /\ forallb (fun e => negb (is_read e)) written = true.
Proof.
  intros Hsave.
  exists (deleted_layers writer (_layers (self st))),
    (flat_map (in_place_events writer (_layers (self st)) (defaultLayer (self st)))
       (od_keys (_layers (self st)))).
  destruct (deleted_layers_spec writer (_layers (self st))) as [Hnd Hdel].
  split; [|split; [assumption | split; [assumption | split; [reflexivity|]]]].
  - unfold write. unfold bind at 1, get_self at 1.
    assert (match saveAs with
            | Some b => b
            | None => reader_is_not (_reader (self st)) writer
            end = false) as ->.
    { destruct Hsave as [->|(-> & reader & -> & Hid)]; [reflexivity|].
      simpl. rewrite bool_decide_eq_true_2 by assumption. reflexivity. }
    cbn [negb]. unfold bind at 1. rewrite delete_glyph_sets_spec.
    unfold bind at 1. rewrite write_layers_in_place by (simpl; auto).
    unfold layerOrder. monad_unfold. simpl. rewrite <- !app_assoc. reflexivity.
  - apply forallb_forall. intros e He. apply in_flat_map in He as (n & _ & He).
    unfold in_place_events in He.
    destruct (od_get n (_layers (self st))) as [[|l]|]; simpl in He;
      [tauto | | tauto].
    destruct He as [<-|[<-|[]]]; reflexivity.
Qed.

Lemma logged_wf events st : wf st -> wf (logged events st).
Proof. intros [Hk He]. split; assumption. Qed.

Lemma logged_extends events st st' : extends st st' -> extends st (logged events st').
Proof.
  intros H. split; try apply H.
  simpl. etrans; [apply (ext_trace _ _ H) | apply prefix_app_r; reflexivity].
Qed.

Lemma Forall2_impl_elem {A B} (P Q : A -> B -> Prop) (l : list A) (k : list B) :
  Forall2 P l k -> (forall x y, x ∈ l -> P x y -> Q x y) -> Forall2 Q l k.
Proof.
  intros H. induction H as [|x y l k Hxy H IH]; intros Himp; constructor.
  - apply Himp; [left | assumption].
  - apply IH. intros x' y' Hx'. apply Himp. right. assumption.
Qed.

(** The body of the loop of a save-as write, at one key. *)
Lemma write_layer_save_as writer dflt st a :
  wf st -> a ∈ od_keys (_layers (self st)) ->
  exists st' seg,
    write_layer writer true dflt a st = (inr tt, st')
    /\ wf st' /\ extends st st'
    /\ trace st' = trace st ++ seg
    /\ save_as_segment writer dflt st st' a seg
    /\ (forall n, n ≠ a -> od_get n (_layers (self st')) = od_get n (_layers (self st))).
Proof.
  intros Hwf Hin. apply od_get_is_Some in Hin as [e He].
  pose proof (wf_lookup _ _ _ Hwf He) as Hok.
  unfold write_layer. unfold bind at 1, get_self at 1. rewrite He.
  destruct e as [|l]; simpl in Hok.
  - destruct Hok as [reader Hr].
    unfold bind at 1. rewrite (loadLayer_pending _ reader) by assumption.
    set (ev := write_events writer a (bool_decide (Some NOT_LOADED = dflt)) true
                 (length (heap st))).
    exists (logged ev (loaded st reader a false false)), (load_events reader a false false (length (heap st)) ++ ev).
    split; [unfold bind, emit, logged; simpl; rewrite <- !app_assoc; reflexivity|].
    split; [apply logged_wf, loaded_wf; assumption|].
    split; [apply logged_extends, loaded_extends; assumption|].
    split; [simpl; rewrite <- app_assoc; reflexivity|].
    split.
    + apply segment_pending; [assumption | assumption | apply od_get_set_eq |].
      simpl. rewrite lookup_app_r, Nat.sub_diag by lia. reflexivity.
    + intros n Hn. simpl. apply od_get_set_ne. congruence.
  - set (ev := write_events writer a (bool_decide (Some (LayerRef l) = dflt)) true l).
    exists (logged ev st), ev.
    split; [unfold bind, emit, logged; simpl; rewrite <- !app_assoc; reflexivity|].
    split; [apply logged_wf; assumption|].
    split; [apply logged_extends, extends_refl|].
    split; [reflexivity|].
    split; [apply segment_loaded; assumption | reflexivity].
Qed.

Lemma save_as_segment_change writer dflt st1 st2 st' n seg :
  save_as_segment writer dflt st2 st' n seg ->
  od_get n (_layers (self st2)) = od_get n (_layers (self st1)) ->
  _reader (self st2) = _reader (self st1) ->
  save_as_segment writer dflt st1 st' n seg.
Proof.
  intros H Hget Hr. destruct H as [l H|reader l H1 H2 H3 H4].
  - apply segment_loaded. congruence.
  - apply segment_pending; congruence.
Qed.

Lemma save_as_segment_no_delete writer dflt st st' n seg :
  save_as_segment writer dflt st st' n seg ->
  forallb (fun e => negb (is_delete e)) seg = true.
Proof. intros [l H|reader l H1 H2 H3 H4]; reflexivity. Qed.

Lemma write_layers_save_as writer dflt (names : list string) st :
  wf st -> NoDup names -> (forall n, n ∈ names -> n ∈ od_keys (_layers (self st))) ->
  exists st' segments,
    write_layers writer true dflt names st = (inr tt, st')
    /\ wf st' /\ extends st st'
    /\ trace st' = trace st ++ concat segments
    /\ Forall2 (save_as_segment writer dflt st st') names segments
    /\ (forall n, n ∉ names -> od_get n (_layers (self st')) = od_get n (_layers (self st)))
    /\ (forall n, n ∈ names -> exists l, od_get n (_layers (self st')) = Some (LayerRef l)).
Proof.
  revert st. induction names as [|a names IH]; intros st Hwf Hnd Hin.
  - exists st, []. split; [reflexivity|]. split; [assumption|].
    split; [apply extends_refl|]. split; [simpl; by rewrite app_nil_r|].
    split; [constructor|]. split; [reflexivity|].
    intros n Hn. apply elem_of_nil in Hn. destruct Hn.
  - apply NoDup_cons in Hnd as [Ha Hnd].
    destruct (write_layer_save_as writer dflt st a Hwf)
      as (st1 & seg & Hrun1 & Hwf1 & Hext1 & Htr1 & Hseg1 & Hoth1); [apply Hin; left|].
    destruct (IH st1 Hwf1 Hnd) as (st' & segs & Hrun & Hwf' & Hext' & Htr & Hsegs & Hoth & Hld).
    { intros n Hn. rewrite (ext_keys _ _ Hext1). apply Hin. right. assumption. }
    exists st', (seg :: segs). cbn [write_layers]. unfold bind at 1. rewrite Hrun1.
    split; [assumption|]. split; [assumption|].
    split; [eapply extends_trans; eassumption|].
    split; [rewrite Htr, Htr1; simpl; rewrite <- app_assoc; reflexivity|].
    assert (od_get a (_layers (self st')) = od_get a (_layers (self st1))) as Ha'
      by (apply Hoth; assumption).
    split; [|split].
    + constructor.
      * destruct Hseg1 as [l H|reader l H1 H2 H3 H4].
        -- apply segment_loaded. assumption.
        -- apply segment_pending; [assumption | assumption | congruence |].
           eapply prefix_lookup_Some; [exact H4 | apply (ext_heap _ _ Hext')].
      * eapply Forall2_impl_elem; [exact Hsegs|].
        intros n sg Hn Hsg. eapply save_as_segment_change; [exact Hsg | |].
        -- apply Hoth1. intros ->. contradiction.
        -- apply (ext_reader _ _ Hext1).
    + intros n Hn. apply not_elem_of_cons in Hn as [Hna Hn].
      rewrite Hoth by assumption. apply Hoth1. assumption.
    + intros n Hn. apply elem_of_cons in Hn as [->|Hn]; [|apply Hld; assumption].
      rewrite Ha'. destruct Hseg1 as [l H|reader l H1 H2 H3 H4].
      * exists l. apply (ext_loaded _ _ Hext1). assumption.
      * exists l. assumption.
Qed.

(** C7. A write with [saveAs] true (given so, or left out when the writer is
    not the reader of the set) sends, for every layer in the order of the
    set, the events of writing it; for a layer that was pending these come
    right after the events of loading it in full ([lazy] false), and the
    object written is the one that was loaded. The order of the layers is
    committed last. No event is a deletion. After the write every entry is
    loaded, and nothing else of the set has changed. *)
Theorem write_save_as (writer : Store) (saveAs : option bool) (st : St) :
  wf st ->
  saveAs = Some true
  \/ (saveAs = None /\ reader_is_not (_reader (self st)) writer = true) ->
  exists st' segments,
    write writer saveAs st = (inr tt, st')
    /\ trace st'
       = trace st ++ concat segments
           ++ [EvWriteLayerContents (store_id writer) (od_keys (_layers (self st)))]
    /\ Forall2 (save_as_segment writer (defaultLayer (self st)) st st')
         (od_keys (_layers (self st))) segments
    /\ forallb (fun e => negb (is_delete e)) (concat segments) = true
    /\ (forall n, n ∈ od_keys (_layers (self st')) ->
          exists l, od_get n (_layers (self st')) = Some (LayerRef l))
    /\ extends st st'.
Proof.
  intros Hwf Hsave.
  destruct (write_layers_save_as writer (defaultLayer (self st))
              (od_keys (_layers (self st))) st Hwf (wf_keys _ Hwf))
    as (st1 & segs & Hrun & Hwf1 & Hext & Htr & Hsegs & _ & Hld); [auto|].
  exists (logged [EvWriteLayerContents (store_id writer) (od_keys (_layers (self st)))] st1),
    segs.
  split; [|split; [|split; [|split; [|split]]]].
  - unfold write. unfold bind at 1, get_self at 1.
    assert (match saveAs with
            | Some b => b
            | None => reader_is_not (_reader (self st)) writer
            end = true) as ->.
    { destruct Hsave as [->|[-> ->]]; reflexivity. }
    cbn [negb]. unfold bind at 1, ret at 1. unfold bind at 1. rewrite Hrun.
    unfold layerOrder, bind, get_self, ret, emit, logged.
    rewrite (ext_keys _ _ Hext). reflexivity.
  - simpl. rewrite Htr, <- app_assoc. reflexivity.
  - eapply Forall2_impl; [exact Hsegs|].
    intros n seg [l H|reader l H1 H2 H3 H4];
      [apply segment_loaded | apply segment_pending]; assumption.
  - clear -Hsegs. induction Hsegs as [|n seg names segs Hseg _ IH]; [reflexivity|].
    simpl. rewrite forallb_app, IH, (save_as_segment_no_delete _ _ _ _ _ _ Hseg).
    reflexivity.
  - intros n Hn. apply Hld. simpl in Hn. rewrite <- (ext_keys _ _ Hext). exact Hn.
  - apply logged_extends. assumption.
Qed.

Lemma write_save_as_witness :
  exists st' segments,
    write example_store (Some true) example_lazy = (inr tt, st')
    /\ trace st'
       = trace example_lazy ++ concat segments
           ++ [EvWriteLayerContents (store_id example_store)
                 (od_keys (_layers (self example_lazy)))]
    /\ Forall2 (save_as_segment example_store (defaultLayer (self example_lazy))
                  example_lazy st')
         (od_keys (_layers (self example_lazy))) segments.
Proof.
  destruct (write_save_as example_store (Some true) example_lazy)
    as (st' & segments & Hrun & Htr & Hsegs & _).
  - exact example_lazy_wf.
  - left. reflexivity.
  - exists st', segments. repeat split; assumption.
Defined.

Lemma write_in_place_witness :
  exists deleted written,
    write example_store None example_lazy
    = (inr tt, mkSt (self example_lazy) (heap example_lazy)
                 (trace example_lazy
                    ++ (EvDeleteGlyphSet (store_id example_store) <$> deleted)
                    ++ written
                    ++ [EvWriteLayerContents (store_id example_store)
                          (od_keys (_layers (self example_lazy)))]))
    /\ written = flat_map (in_place_events example_store (_layers (self example_lazy))
                             (defaultLayer (self example_lazy)))
                   (od_keys (_layers (self example_lazy))).
Proof.
  destruct (write_in_place example_store None example_lazy)
    as (deleted & written & Hrun & _ & _ & Hw & _).
  - right. split; [reflexivity|]. exists example_store. split; reflexivity.
  - exists deleted, written. split; assumption.
Defined.

End Write.

(** * More of the layer set *)

(** ** Deleting from an ordered dictionary *)

Section OrderedDictDelete.
Context {V : Type}.
Implicit Types (d : list (string * V)) (k : string) (v : V).

Lemma od_keys_del d k : od_keys (od_del k d) ⊆ od_keys d.
Proof.
  unfold od_keys. induction d as [|[k' v'] d IH]; simpl; [reflexivity|].
  case_decide; simpl.
  - intros x Hx. right. assumption.
  - intros x Hx. apply elem_of_cons in Hx as [->|Hx]; [left | right; apply IH, Hx].
Qed.

Lemma od_get_del_ne d k k' : k ≠ k' -> od_get k' (od_del k d) = od_get k' d.
Proof.
  intros Hne. induction d as [|[k0 v0] d IH]; simpl; [reflexivity|].
  destruct (decide (k0 = k)) as [->|Hk0]; simpl.
  - rewrite decide_False by assumption. reflexivity.
  - rewrite IH. reflexivity.
Qed.

Lemma filter_ne_absent (l : list string) k : k ∉ l -> filter (fun k' => k' ≠ k) l = l.
Proof.
  induction l as [|x l IH]; intros Hk; [reflexivity|].
  apply not_elem_of_cons in Hk as [Hne Hk].
  rewrite filter_cons_True by congruence. rewrite IH by assumption. reflexivity.
Qed.

Lemma od_keys_del_NoDup d k :
  NoDup (od_keys d) -> od_keys (od_del k d) = filter (fun k' => k' ≠ k) (od_keys d).
Proof.
  unfold od_keys. induction d as [|[k' v'] d IH]; intros Hnd; [reflexivity|].
  rewrite fmap_cons in Hnd. apply NoDup_cons in Hnd as [Hk' Hnd]. simpl in Hk'.
  cbn [od_del]. destruct (decide (k' = k)) as [->|Hne].
  - rewrite fmap_cons. cbn [fst].
    rewrite filter_cons_False by (intros H; apply H; reflexivity).
    symmetry. apply filter_ne_absent. assumption.
  - rewrite !fmap_cons. cbn [fst]. rewrite filter_cons_True by assumption.
    rewrite IH by assumption. reflexivity.
Qed.

Lemma od_get_del_eq d k : NoDup (od_keys d) -> od_get k (od_del k d) = None.
Proof.
  intros Hnd. apply od_get_None. rewrite od_keys_del_NoDup by assumption.
  rewrite list_elem_of_filter. intros [H _]. apply H. reflexivity.
Qed.

End OrderedDictDelete.

(** ** Adding, deleting and getting layers *)

Section Mutators.
Implicit Types (st : St) (n name newName : string).

(** X1. [newLayer] with a name the set does not have returns a new, empty
    layer object of that name and puts it last in the order; [self[name]]
    then returns that object. The other entries, the default layer, the
    reader and the trace are as before. *)
Theorem newLayer_fresh st name :
  name ∉ od_keys (_layers (self st)) ->
  exists st',
    newLayer name st = (inr (length (heap st)), st')
    /\ layerOrder st' = (inr (od_keys (_layers (self st)) ++ [name]), st')
    /\ __getitem__ name st' = (inr (length (heap st)), st')
    /\ heap st' = heap st ++ [Layer.mk name ∅]
    /\ (forall n, n ≠ name -> od_get n (_layers (self st')) = od_get n (_layers (self st)))
    /\ defaultLayer (self st') = defaultLayer (self st)
    /\ _reader (self st') = _reader (self st)
    /\ trace st' = trace st.
Proof.
  intros Hfresh. eexists. split.
  { unfold newLayer. monad_unfold. simpl.
    rewrite (proj2 (od_contains_false _ _) Hfresh). reflexivity. }
  simpl. split; [|split; [|split; [reflexivity | split; [|repeat split]]]].
  - unfold layerOrder. monad_unfold. simpl.
    rewrite od_keys_set, decide_False by assumption. reflexivity.
  - apply getitem_loaded. simpl. apply od_get_set_eq.
  - intros n Hn. apply od_get_set_ne. congruence.
Qed.

Lemma newLayer_fresh_witness :
  exists st',
    newLayer "sketches" two_layers = (inr 2, st')
    /\ layerOrder st' = (inr [DEFAULT_LAYER_NAME; "a"; "sketches"], st').
Proof.
  destruct (newLayer_fresh two_layers "sketches") as (st' & H1 & H2 & _).
  - apply od_contains_false. vm_compute. reflexivity.
  - exists st'. split; assumption.
Defined.

(** X2. [newLayer] with a name the set has already raises the [KeyError]
    that says the layer exists, whether the entry is loaded or pending, and
    changes nothing. *)
Theorem newLayer_taken st name :
  name ∈ od_keys (_layers (self st)) ->
  newLayer name st = (inl (KeyError (Fmt "layer %r already exists" (ArgStr name))), st).
Proof.
  intros Hin. unfold newLayer. monad_unfold.
  rewrite (proj2 (od_contains_true _ _) Hin). reflexivity.
Qed.

Lemma newLayer_taken_witness :
  newLayer "bg" example_lazy
  = (inl (KeyError (Fmt "layer %r already exists" (ArgStr "bg"))), example_lazy).
Proof.
  apply (newLayer_taken example_lazy "bg").
  apply od_contains_true. vm_compute. reflexivity.
Defined.

(** X3. Deleting a layer whose name is not that of the default layer takes
    its entry out of the set and leaves the others in their order; the name
    is then no member of the set. The heap and the trace are as before: the
    layer object is not touched, and a pending layer is not loaded. *)
Theorem delitem_other st name l L :
  NoDup (od_keys (_layers (self st))) ->
  defaultLayer (self st) = Some (LayerRef l) ->
  heap st !! l = Some L ->
  name ≠ Layer._name L ->
  name ∈ od_keys (_layers (self st)) ->
  exists st',
    __delitem__ name st = (inr tt, st')
    /\ od_keys (_layers (self st')) = filter (fun k => k ≠ name) (od_keys (_layers (self st)))
    /\ __contains__ name st' = (inr false, st')
    /\ (forall n, n ≠ name -> od_get n (_layers (self st')) = od_get n (_layers (self st)))
    /\ defaultLayer (self st') = defaultLayer (self st)
    /\ heap st' = heap st /\ trace st' = trace st.
Proof.
  intros Hnd Hd HL Hne Hin. eexists. split.
  { unfold __delitem__, defaultLayer_name, del_layers_item. monad_unfold.
    rewrite Hd, HL. rewrite decide_False by assumption.
    rewrite (proj2 (od_contains_true _ _) Hin). reflexivity. }
  simpl. split; [apply od_keys_del_NoDup; assumption|].
  split; [|split; [|repeat split]].
  - unfold __contains__. monad_unfold. simpl.
    rewrite (proj2 (od_contains_false _ _)); [reflexivity|].
    apply od_get_None, od_get_del_eq. assumption.
  - intros n Hn. apply od_get_del_ne. congruence.
Qed.

Lemma delitem_other_witness :
  exists st',
    __delitem__ "bg" example_lazy = (inr tt, st')
    /\ od_keys (_layers (self st')) = [DEFAULT_LAYER_NAME; "fg"]
    /\ trace st' = trace example_lazy.
Proof.
  destruct (delitem_other example_lazy "bg" 0 (Layer.mk DEFAULT_LAYER_NAME (glyphs_named ["c"])))
    as (st' & H1 & H2 & _ & _ & _ & _ & H3).
  - rewrite example_lazy_layers.
    apply (bool_decide_unpack (NoDup [DEFAULT_LAYER_NAME; "bg"; "fg"])).
    vm_compute. exact I.
  - reflexivity.
  - reflexivity.
  - discriminate.
  - apply od_contains_true. vm_compute. reflexivity.
  - exists st'. split; [assumption|]. split; [|assumption].
    rewrite H2, example_lazy_layers. vm_compute. reflexivity.
Defined.

(** X4. Deleting a name the set does not have, other than the name of the
    default layer, raises [KeyError] with that name and changes nothing. *)
Theorem delitem_absent st name l L :
  defaultLayer (self st) = Some (LayerRef l) ->
  heap st !! l = Some L ->
  name ≠ Layer._name L ->
  name ∉ od_keys (_layers (self st)) ->
  __delitem__ name st = (inl (KeyError (Key name)), st).
Proof.
  intros Hd HL Hne Hin.
  unfold __delitem__, defaultLayer_name, del_layers_item. monad_unfold.
  rewrite Hd, HL. rewrite decide_False by assumption.
  rewrite (proj2 (od_contains_false _ _) Hin). reflexivity.
Qed.

Lemma delitem_absent_witness :
  __delitem__ "nowhere" two_layers = (inl (KeyError (Key "nowhere")), two_layers).
Proof.
  apply (delitem_absent two_layers "nowhere" 0 (Layer.mk DEFAULT_LAYER_NAME ∅)).
  - reflexivity.
  - reflexivity.
  - discriminate.
  - apply od_contains_false. vm_compute. reflexivity.
Defined.

(** X5. [get] answers a name the set does not have with the default it was
    given, raising nothing and changing nothing; for a name the set has it
    returns what [self[name]] returns and leaves the state [self[name]]
    leaves, so a pending layer is loaded by it. *)
Theorem get_spec st name (default : option loc) :
  (name ∉ od_keys (_layers (self st)) -> get name default st = (inr default, st))
  /\ (forall l st', __getitem__ name st = (inr l, st') ->
        get name default st = (inr (Some l), st')).
Proof.
  split.
  - intros H. unfold get. rewrite (getitem_absent _ _ H). reflexivity.
  - intros l st' H. unfold get. rewrite H. reflexivity.
Qed.

Lemma get_spec_witness :
  get "nowhere" None example_lazy = (inr None, example_lazy)
  /\ get "bg" None example_lazy
     = (inr (Some 1), loaded example_lazy example_store "bg" true false).
Proof.
  split.
  - apply (proj1 (get_spec example_lazy "nowhere" None)).
    apply od_contains_false. vm_compute. reflexivity.
  - apply (proj2 (get_spec example_lazy "bg" None)).
    apply (getitem_pending example_lazy example_store "bg").
    + reflexivity.
    + rewrite example_lazy_layers. reflexivity.
Defined.

End Mutators.

(** ** Renaming a layer *)

Section RenameLayer.
Implicit Types (st : St) (n name newName : string).

(** X6. Without [overwrite], renaming a layer to a name the set has already
    raises the [KeyError] that says the target exists and changes nothing;
    the old name is not even looked up, so this is also the answer when no
    layer has the old name. *)
Theorem renameLayer_conflict st name newName :
  name ≠ newName ->
  newName ∈ od_keys (_layers (self st)) ->
  renameLayer name newName false st
  = (inl (KeyError (Fmt "target name %r already exists" (ArgStr newName))), st).
Proof.
  intros Hne Hin. unfold renameLayer. rewrite decide_False by assumption.
  monad_unfold. rewrite (proj2 (od_contains_true _ _) Hin). reflexivity.
Qed.

Lemma renameLayer_conflict_witness :
  renameLayer "nowhere" "bg" false example_lazy
  = (inl (KeyError (Fmt "target name %r already exists" (ArgStr "bg"))), example_lazy).
Proof.
  apply (renameLayer_conflict example_lazy "nowhere" "bg").
  - discriminate.
  - apply od_contains_true. vm_compute. reflexivity.
Defined.

Lemma renameLayer_loaded st name newName overwrite l L :
  name ≠ newName ->
  od_get name (_layers (self st)) = Some (LayerRef l) ->
  heap st !! l = Some L ->
  overwrite = true \/ newName ∉ od_keys (_layers (self st)) ->
  renameLayer name newName overwrite st
  = (inr tt, renamed st name newName l (Layer._glyphs L)).
Proof.
  intros Hne Hget HL Hok. unfold renameLayer. rewrite decide_False by assumption.
  unfold bind at 1, get_self at 1.
  assert (negb overwrite && od_contains newName (_layers (self st)) = false) as ->.
  { destruct Hok as [->|Hn]; [reflexivity|].
    rewrite (proj2 (od_contains_false _ _) Hn). apply andb_false_r. }
  unfold bind at 1. rewrite (getitem_loaded _ _ _ Hget).
  unfold del_layers_item, layer_set_name. monad_unfold. simpl.
  assert (od_contains name (_layers (self st)) = true) as ->.
  { apply od_contains_true, od_get_is_Some. eauto. }
  simpl. rewrite HL. reflexivity.
Qed.

(** X7. Renaming a loaded layer to a name the set does not have succeeds:
    the layer object is the same and now carries the new name, with the
    glyphs it had; its entry is no longer where it was but last in the order,
    since the old key is deleted and the new one inserted. Every other entry
    and every other object of the heap is as before. *)
Theorem renameLayer_moves_last st name newName overwrite l L :
  NoDup (od_keys (_layers (self st))) ->
  name ≠ newName ->
  od_get name (_layers (self st)) = Some (LayerRef l) ->
  heap st !! l = Some L ->
  newName ∉ od_keys (_layers (self st)) ->
  exists st',
    renameLayer name newName overwrite st = (inr tt, st')
    /\ od_keys (_layers (self st'))
       = filter (fun k => k ≠ name) (od_keys (_layers (self st))) ++ [newName]
    /\ od_get newName (_layers (self st')) = Some (LayerRef l)
    /\ od_get name (_layers (self st')) = None
    /\ heap st' !! l = Some (Layer.mk newName (Layer._glyphs L))
    /\ (forall n, n ≠ name -> n ≠ newName ->
          od_get n (_layers (self st')) = od_get n (_layers (self st)))
    /\ (forall l', l' ≠ l -> heap st' !! l' = heap st !! l')
    /\ defaultLayer (self st') = defaultLayer (self st)
    /\ trace st' = trace st.
Proof.
  intros Hnd Hne Hget HL Hfresh.
  exists (renamed st name newName l (Layer._glyphs L)).
  split; [apply renameLayer_loaded; auto|].
  assert (newName ∉ od_keys (od_del name (_layers (self st)))) as Hfresh'.
  { intros H. apply Hfresh. eapply od_keys_del; eassumption. }
  simpl. split; [|split; [|split; [|split; [|split; [|split; [|split]]]]]].
  - rewrite od_keys_set, decide_False by assumption.
    rewrite od_keys_del_NoDup by assumption. reflexivity.
  - apply od_get_set_eq.
  - rewrite od_get_set_ne by congruence. apply od_get_del_eq. assumption.
  - apply list_lookup_insert_eq. eapply lookup_lt_Some. eassumption.
  - intros n Hn1 Hn2. rewrite od_get_set_ne by congruence.
    apply od_get_del_ne. congruence.
  - intros l' Hl'. apply list_lookup_insert_ne. congruence.
  - reflexivity.
  - reflexivity.
Qed.

Lemma renameLayer_moves_last_witness :
  exists st',
    renameLayer DEFAULT_LAYER_NAME "foreground" false two_layers = (inr tt, st')
    /\ od_keys (_layers (self st')) = ["a"; "foreground"]
    /\ heap st' !! 0 = Some (Layer.mk "foreground" ∅).
Proof.
  destruct (renameLayer_moves_last two_layers DEFAULT_LAYER_NAME "foreground" false 0
              (Layer.mk DEFAULT_LAYER_NAME ∅))
    as (st' & H1 & H2 & _ & _ & H3 & _).
  - apply (bool_decide_unpack (NoDup [DEFAULT_LAYER_NAME; "a"])). vm_compute. exact I.
  - discriminate.
  - reflexivity.
  - reflexivity.
  - apply od_contains_false. vm_compute. reflexivity.
  - exists st'. split; [assumption|]. split; [|assumption].
    rewrite H2. vm_compute. reflexivity.
Defined.

(** X8. Renaming a layer the set does not have raises [KeyError] with the
    old name and changes nothing (when the new name is free, or [overwrite]
    is set, so that the check of the new name passes). *)
Theorem renameLayer_missing st name newName overwrite :
  name ≠ newName ->
  name ∉ od_keys (_layers (self st)) ->
  overwrite = true \/ newName ∉ od_keys (_layers (self st)) ->
  renameLayer name newName overwrite st = (inl (KeyError (Key name)), st).
Proof.
  intros Hne Hname Hok. unfold renameLayer. rewrite decide_False by assumption.
  unfold bind at 1, get_self at 1.
  assert (negb overwrite && od_contains newName (_layers (self st)) = false) as ->.
  { destruct Hok as [->|Hn]; [reflexivity|].
    rewrite (proj2 (od_contains_false _ _) Hn). apply andb_false_r. }
  unfold bind at 1. rewrite (getitem_absent _ _ Hname). reflexivity.
Qed.

Lemma renameLayer_missing_witness :
  renameLayer "nowhere" "bg" true example_lazy
  = (inl (KeyError (Key "nowhere")), example_lazy).
Proof.
  apply (renameLayer_missing example_lazy "nowhere" "bg" true).
  - discriminate.
  - apply od_contains_false. vm_compute. reflexivity.
  - left. reflexivity.
Defined.

Lemma delitem_default_name st l L :
  defaultLayer (self st) = Some (LayerRef l) ->
  heap st !! l = Some L ->
  __delitem__ (Layer._name L) st
  = (inl (KeyError (Fmt "cannot delete default layer %r" (ArgStr (Layer._name L)))), st).
Proof.
  intros Hd HL. unfold __delitem__, defaultLayer_name. monad_unfold.
  rewrite Hd, HL, decide_True by reflexivity. reflexivity.
Qed.

(** X9. The default layer stays the default layer when it is renamed: it is
    known by the object, not by the name. After the default layer has been
    renamed to a free name it is still among the entries, and deleting the
    new name is refused as deleting the old one was. *)
Theorem renameLayer_default_stays st name newName overwrite l L :
  name ≠ newName ->
  defaultLayer (self st) = Some (LayerRef l) ->
  od_get name (_layers (self st)) = Some (LayerRef l) ->
  heap st !! l = Some L ->
  newName ∉ od_keys (_layers (self st)) ->
  exists st',
    renameLayer name newName overwrite st = (inr tt, st')
    /\ default_in_set st' = true
    /\ __delitem__ newName st'
       = (inl (KeyError (Fmt "cannot delete default layer %r" (ArgStr newName))), st').
Proof.
  intros Hne Hd Hget HL Hfresh.
  exists (renamed st name newName l (Layer._glyphs L)).
  split; [apply renameLayer_loaded; auto|]. split.
  - unfold default_in_set. simpl. rewrite Hd.
    apply (od_get_in_values _ newName). apply od_get_set_eq.
  - apply (delitem_default_name _ l (Layer.mk newName (Layer._glyphs L))).
    + simpl. assumption.
    + simpl. apply list_lookup_insert_eq. eapply lookup_lt_Some. eassumption.
Qed.

End RenameLayer.

Section RenameLayerMore.
Implicit Types (st : St) (n name newName : string).

Lemma renameLayer_default_stays_witness :
  exists st',
    renameLayer DEFAULT_LAYER_NAME "foreground" false two_layers = (inr tt, st')
    /\ default_in_set st' = true
    /\ __delitem__ "foreground" st'
       = (inl (KeyError (Fmt "cannot delete default layer %r" (ArgStr "foreground"))), st').
Proof.
  apply (renameLayer_default_stays two_layers DEFAULT_LAYER_NAME "foreground" false 0
           (Layer.mk DEFAULT_LAYER_NAME ∅)).
  - discriminate.
  - reflexivity.
  - reflexivity.
  - reflexivity.
  - apply od_contains_false. vm_compute. reflexivity.
Defined.

(** X10. Renaming a pending layer loads it first, once, lazily and under
    its old name, since the rename needs the object; the object then carries
    the new name and the glyphs the reader holds under the old one, and is
    the entry of the new name. The old name is no key any more. *)
Theorem renameLayer_pending st reader name newName overwrite :
  NoDup (od_keys (_layers (self st))) ->
  name ≠ newName ->
  _reader (self st) = Some reader ->
  od_get name (_layers (self st)) = Some NOT_LOADED ->
  newName ∉ od_keys (_layers (self st)) ->
  exists st',
    renameLayer name newName overwrite st = (inr tt, st')
    /\ trace st' = trace st ++ load_events reader name true false (length (heap st))
    /\ heap st' = heap st ++ [Layer.mk newName (glyphSet reader name)]
    /\ od_get newName (_layers (self st')) = Some (LayerRef (length (heap st)))
    /\ od_get name (_layers (self st')) = None
    /\ (forall n, n ≠ name -> n ≠ newName ->
          od_get n (_layers (self st')) = od_get n (_layers (self st))).
Proof.
  intros Hnd Hne Hr Hget Hfresh.
  pose proof (od_get_set_eq (_layers (self st)) name (LayerRef (length (heap st)))) as Hget1.
  assert (od_keys (_layers (self (loaded st reader name true false)))
          = od_keys (_layers (self st))) as Hkeys1.
  { apply od_keys_set_in, od_get_is_Some. eauto. }
  assert (heap (loaded st reader name true false) !! length (heap st)
          = Some (Layer.mk name (glyphSet reader name))) as HL1.
  { simpl. rewrite lookup_app_r, Nat.sub_diag by lia. reflexivity. }
  exists (renamed (loaded st reader name true false) name newName (length (heap st))
            (glyphSet reader name)).
  split.
  { etrans;
      [| apply (renameLayer_loaded (loaded st reader name true false) name newName
                  overwrite (length (heap st)) (Layer.mk name (glyphSet reader name)));
         [assumption | exact Hget1 | exact HL1 | right; rewrite Hkeys1; assumption]].
    unfold renameLayer. rewrite decide_False by assumption.
    unfold bind at 1, get_self at 1.
    rewrite (proj2 (od_contains_false _ _) Hfresh), andb_false_r.
    unfold bind at 1. rewrite (getitem_pending _ reader) by assumption.
    symmetry. unfold bind at 1, get_self at 1.
    assert (od_contains newName (_layers (self (loaded st reader name true false))) = false)
      as -> by (apply od_contains_false; rewrite Hkeys1; assumption).
    rewrite andb_false_r. unfold bind at 1.
    rewrite (getitem_loaded (loaded st reader name true false) name (length (heap st)) Hget1).
    reflexivity. }
  split; [reflexivity|]. split.
  { simpl. rewrite insert_app_r_alt, Nat.sub_diag by lia. reflexivity. }
  split; [apply od_get_set_eq|]. split.
  { cbn [renamed self _layers LayerSet._layers].
    rewrite od_get_set_ne by congruence. apply od_get_del_eq.
    rewrite Hkeys1. assumption. }
  intros n Hn1 Hn2. cbn [renamed self _layers LayerSet._layers].
  rewrite od_get_set_ne by congruence. rewrite od_get_del_ne by congruence.
  simpl. apply od_get_set_ne. congruence.
Qed.

Lemma renameLayer_pending_witness :
  exists st',
    renameLayer "bg" "background" false example_lazy = (inr tt, st')
    /\ trace st' = trace example_lazy ++ load_events example_store "bg" true false 1
    /\ od_get "background" (_layers (self st')) = Some (LayerRef 1)
    /\ od_get "bg" (_layers (self st')) = None.
Proof.
  destruct (renameLayer_pending example_lazy example_store "bg" "background" false)
    as (st' & H1 & H2 & _ & H3 & H4 & _).
  - rewrite example_lazy_layers.
    apply (bool_decide_unpack (NoDup [DEFAULT_LAYER_NAME; "bg"; "fg"])).
    vm_compute. exact I.
  - discriminate.
  - reflexivity.
  - rewrite example_lazy_layers. reflexivity.
  - apply od_contains_false. vm_compute. reflexivity.
  - exists st'. repeat split; assumption.
Defined.

End RenameLayerMore.

(** ** Building a layer set *)

Section Construction.
Implicit Types (st : St) (n name : string).

Lemma od_set_fresh {V} (d : list (string * V)) k v :
  k ∉ od_keys d -> od_set k v d = d ++ [(k, v)].
Proof.
  unfold od_keys. induction d as [|[k' v'] d IH]; intros Hk; [reflexivity|].
  rewrite fmap_cons in Hk. apply not_elem_of_cons in Hk as [Hne Hk]. simpl in Hne.
  cbn [od_set]. rewrite decide_False by congruence. rewrite IH by assumption.
  reflexivity.
Qed.

Lemma convert_layers_loop_ok st (locs : list loc) (Ls : list Layer.Layer)
    (layers : list (string * entry)) :
  Forall2 (fun l L => heap st !! l = Some L) locs Ls ->
  NoDup (od_keys layers ++ (Layer._name <$> Ls)) ->
  _convert_layers_loop (ItemLayer <$> locs) layers st
  = (inr (layers ++ zip (Layer._name <$> Ls) (LayerRef <$> locs)), st).
Proof.
  intros H. revert layers. induction H as [|l L locs Ls HL H IH]; intros layers Hnd.
  - simpl. rewrite app_nil_r. reflexivity.
  - rewrite !fmap_cons. cbn [_convert_layers_loop zip zip_with].
    unfold bind at 1, deref at 1. rewrite HL.
    rewrite fmap_cons in Hnd. apply NoDup_app in Hnd as (Hnd1 & Hdis & Hnd2).
    apply NoDup_cons in Hnd2 as [HL2 Hnd2].
    assert (Layer._name L ∉ od_keys layers) as Hfresh.
    { intros Hin. apply (Hdis _ Hin). left. }
    rewrite (proj2 (od_contains_false _ _) Hfresh).
    rewrite od_set_fresh by assumption. rewrite IH.
    + rewrite <- app_assoc. reflexivity.
    + unfold od_keys. rewrite fmap_app. simpl. rewrite <- app_assoc. simpl.
      apply NoDup_app. split; [assumption|]. split.
      * intros x Hx Hx'. apply elem_of_cons in Hx' as [->|Hx'].
        -- contradiction.
        -- apply (Hdis _ Hx). right. assumption.
      * apply NoDup_cons. split; assumption.
Qed.

(** X11. The converter of [_layers] turns an iterable of layer objects whose
    names are all different into the dictionary of these objects under their
    names, in the order of the iterable, and changes nothing. *)
Theorem convert_layers_ok st (locs : list loc) (Ls : list Layer.Layer) :
  Forall2 (fun l L => heap st !! l = Some L) locs Ls ->
  NoDup (Layer._name <$> Ls) ->
  exists layers,
    _convert_layers (AnIterable (ItemLayer <$> locs)) st = (inr layers, st)
    /\ od_keys layers = Layer._name <$> Ls
    /\ od_values layers = LayerRef <$> locs.
Proof.
  intros H Hnd. exists (zip (Layer._name <$> Ls) (LayerRef <$> locs)).
  assert (length (Layer._name <$> Ls) = length (LayerRef <$> locs)) as Hlen.
  { rewrite !length_fmap. symmetry. eapply Forall2_length. eassumption. }
  split; [|split].
  - unfold _convert_layers. rewrite (convert_layers_loop_ok st locs Ls []); auto.
  - unfold od_keys. apply fst_zip. lia.
  - unfold od_values. apply snd_zip. lia.
Qed.

Lemma convert_layers_ok_witness :
  exists layers,
    _convert_layers (AnIterable [ItemLayer 1; ItemLayer 0]) two_layers
    = (inr layers, two_layers)
    /\ od_keys layers = ["a"; DEFAULT_LAYER_NAME]
    /\ od_values layers = [LayerRef 1; LayerRef 0].
Proof.
  apply (convert_layers_ok two_layers [1; 0] [Layer.mk "a" ∅; Layer.mk DEFAULT_LAYER_NAME ∅]).
  - repeat constructor.
  - apply (bool_decide_unpack (NoDup ["a"; DEFAULT_LAYER_NAME])). vm_compute. exact I.
Defined.

Lemma convert_layers_loop_app st (locs : list loc) (Ls : list Layer.Layer)
    (rest : list item) :
  Forall2 (fun l L => heap st !! l = Some L) locs Ls ->
  NoDup (Layer._name <$> Ls) ->
  _convert_layers_loop ((ItemLayer <$> locs) ++ rest) [] st
  = _convert_layers_loop rest (zip (Layer._name <$> Ls) (LayerRef <$> locs)) st.
Proof.
  intros H Hnd.
  assert (forall layers,
    NoDup (od_keys layers ++ (Layer._name <$> Ls)) ->
    _convert_layers_loop ((ItemLayer <$> locs) ++ rest) layers st
    = _convert_layers_loop rest (layers ++ zip (Layer._name <$> Ls) (LayerRef <$> locs)) st)
    as Hgen.
  { clear Hnd. induction H as [|l L locs Ls HL H IH]; intros layers Hnd.
    - simpl. rewrite app_nil_r. reflexivity.
    - rewrite !fmap_cons. cbn [app _convert_layers_loop zip zip_with].
      unfold bind at 1, deref at 1. rewrite HL.
      rewrite fmap_cons in Hnd. apply NoDup_app in Hnd as (Hnd1 & Hdis & Hnd2).
      apply NoDup_cons in Hnd2 as [HL2 Hnd2].
      assert (Layer._name L ∉ od_keys layers) as Hfresh.
      { intros Hin. apply (Hdis _ Hin). left. }
      rewrite (proj2 (od_contains_false _ _) Hfresh).
      rewrite od_set_fresh by assumption. rewrite IH.
      + rewrite <- app_assoc. reflexivity.
      + unfold od_keys. rewrite fmap_app. simpl. rewrite <- app_assoc. simpl.
        apply NoDup_app. split; [assumption|]. split.
        * intros x Hx Hx'. apply elem_of_cons in Hx' as [->|Hx'].
          -- contradiction.
          -- apply (Hdis _ Hx). right. assumption.
        * apply NoDup_cons. split; assumption. }
  apply (Hgen []). assumption.
Qed.

(** X12. The converter stops at the first element it cannot take. After
    layer objects of different names, an element that is no [Layer] raises
    the [TypeError] that names its type, and a layer whose name has come
    before raises the [KeyError] of the duplicate name; whatever follows is
    not looked at, and nothing is changed. *)
Theorem convert_layers_rejects st (locs : list loc) (Ls : list Layer.Layer)
    (rest : list item) :
  Forall2 (fun l L => heap st !! l = Some L) locs Ls ->
  NoDup (Layer._name <$> Ls) ->
  (forall type_name,
      _convert_layers (AnIterable ((ItemLayer <$> locs) ++ ItemOther type_name :: rest)) st
      = (inl (TypeError (Fmt "expected 'Layer', found '%s'" (ArgStr type_name))), st))
  /\ (forall l L,
        heap st !! l = Some L ->
        Layer._name L ∈ Layer._name <$> Ls ->
        _convert_layers (AnIterable ((ItemLayer <$> locs) ++ ItemLayer l :: rest)) st
        = (inl (KeyError (Fmt "duplicate layer name: '%s'" (ArgStr (Layer._name L)))), st)).
Proof.
  intros H Hnd.
  assert (length (Layer._name <$> Ls) = length (LayerRef <$> locs)) as Hlen.
  { rewrite !length_fmap. symmetry. eapply Forall2_length. eassumption. }
  split.
  - intros type_name. unfold _convert_layers.
    rewrite (convert_layers_loop_app st locs Ls) by assumption. reflexivity.
  - intros l L HL Hdup. unfold _convert_layers.
    rewrite (convert_layers_loop_app st locs Ls) by assumption.
    cbn [_convert_layers_loop]. unfold bind at 1, deref at 1. rewrite HL.
    rewrite (proj2 (od_contains_true _ _)); [reflexivity|].
    unfold od_keys. rewrite fst_zip by lia. assumption.
Qed.

Lemma convert_layers_rejects_witness :
  _convert_layers (AnIterable [ItemLayer 1; ItemOther "str"; ItemLayer 0]) two_layers
  = (inl (TypeError (Fmt "expected 'Layer', found '%s'" (ArgStr "str"))), two_layers)
  /\ _convert_layers (AnIterable [ItemLayer 1; ItemLayer 1]) two_layers
     = (inl (KeyError (Fmt "duplicate layer name: '%s'" (ArgStr "a"))), two_layers).
Proof.
  destruct (convert_layers_rejects two_layers [1] [Layer.mk "a" ∅] [ItemLayer 0])
    as [H1 _].
  { repeat constructor. }
  { apply (bool_decide_unpack (NoDup ["a"])). vm_compute. exact I. }
  destruct (convert_layers_rejects two_layers [1] [Layer.mk "a" ∅] [])
    as [_ H2].
  { repeat constructor. }
  { apply (bool_decide_unpack (NoDup ["a"])). vm_compute. exact I. }
  split.
  - exact (H1 "str").
  - apply (H2 1 (Layer.mk "a" ∅)); [reflexivity|]. simpl. left.
Defined.

End Construction.

Section Constructor.
Implicit Types (st : St) (d : list (string * entry)).

(** X13. A layer set built from no layer at all is not empty: the
    constructor makes one empty layer named [DEFAULT_LAYER_NAME], which is
    the only entry and the default layer, and keeps no reader. Given a
    default layer along with no layers, it raises a [TypeError] instead. *)
Theorem init_empty st :
  __init__ (AnIterable []) None st
  = (inr tt, mkSt (LayerSet.mk [(DEFAULT_LAYER_NAME, LayerRef (length (heap st)))]
                     (Some (LayerRef (length (heap st)))) None)
               (heap st ++ [Layer.mk DEFAULT_LAYER_NAME ∅]) (trace st))
  /\ __init__ (AnOrderedDict []) None st = __init__ (AnIterable []) None st
  /\ (forall default,
        __init__ (AnIterable []) (Some default) st
        = (inl (TypeError (Str "'defaultLayer' argument is invalid with empty LayerSet")),
           mkSt (LayerSet.mk [] (Some default) None) (heap st) (trace st))).
Proof. repeat split. Qed.

Lemma existsb_entry_is d (default : entry) :
  existsb (fun layer => entry_is layer default) (od_values d) = true <-> default ∈ od_values d.
Proof.
  rewrite existsb_exists. split.
  - intros (e & He & His). apply bool_decide_eq_true in His. subst.
    apply list_elem_of_In. assumption.
  - intros H. exists default. split; [apply list_elem_of_In; assumption|].
    apply bool_decide_eq_true_2. reflexivity.
Qed.

(** X14. With a default layer given, the constructor takes a dictionary of
    layers exactly when the default layer is one of its values, as the same
    object; otherwise it raises the [ValueError] that shows the object. The
    name of the default layer plays no part. *)
Theorem init_explicit_default st d (default : entry) :
  d ≠ [] ->
  (default ∈ od_values d ->
   __init__ (AnOrderedDict d) (Some default) st
   = (inr tt, mkSt (LayerSet.mk d (Some default) None) (heap st) (trace st)))
  /\ (default ∉ od_values d ->
      __init__ (AnOrderedDict d) (Some default) st
      = (inl (ValueError (Fmt "defaultLayer %r is not among the specified layers"
                            (ArgObj default))),
         mkSt (LayerSet.mk d (Some default) None) (heap st) (trace st))).
Proof.
  intros Hd. destruct d as [|p d]; [contradiction|].
  unfold __init__, _convert_layers, __attrs_post_init__. monad_unfold.
  cbn [self _layers defaultLayer LayerSet._layers LayerSet.defaultLayer].
  split; intros H.
  - rewrite (proj2 (existsb_entry_is _ _) H). reflexivity.
  - destruct (existsb (fun layer => entry_is layer default) (od_values (p :: d))) eqn:He;
      [|reflexivity].
    apply existsb_entry_is in He. contradiction.
Qed.

Lemma init_explicit_default_witness :
  __init__ (AnOrderedDict [("a", LayerRef 1); ("b", LayerRef 0)]) (Some (LayerRef 1)) two_layers
  = (inr tt, mkSt (LayerSet.mk [("a", LayerRef 1); ("b", LayerRef 0)] (Some (LayerRef 1)) None)
               (heap two_layers) (trace two_layers))
  /\ __init__ (AnOrderedDict [("a", LayerRef 1)]) (Some (LayerRef 0)) two_layers
     = (inl (ValueError (Fmt "defaultLayer %r is not among the specified layers"
                           (ArgObj (LayerRef 0)))),
        mkSt (LayerSet.mk [("a", LayerRef 1)] (Some (LayerRef 0)) None)
          (heap two_layers) (trace two_layers)).
Proof.
  split.
  - apply (proj1 (init_explicit_default two_layers
                    [("a", LayerRef 1); ("b", LayerRef 0)] (LayerRef 1) ltac:(discriminate))).
    simpl. left.
  - apply (proj2 (init_explicit_default two_layers
                    [("a", LayerRef 1)] (LayerRef 0) ltac:(discriminate))).
    simpl. intros H. apply list_elem_of_singleton in H. discriminate H.
Defined.

(** X15. With two layers or more and no default layer given, the default
    layer is the entry named [DEFAULT_LAYER_NAME]; when no entry has that
    name the constructor raises the [ValueError] that says the default layer
    is not specified. *)
Theorem init_several st d :
  2 <= length d ->
  __init__ (AnOrderedDict d) None st
  = match od_get DEFAULT_LAYER_NAME d with
    | Some layer =>
        (inr tt, mkSt (LayerSet.mk d (Some layer) None) (heap st) (trace st))
    | None =>
        (inl (ValueError (Str "default layer not specified")),
         mkSt (LayerSet.mk d None None) (heap st) (trace st))
    end.
Proof.
  intros Hlen. destruct d as [|p [|q d]]; simpl in Hlen; [lia | lia |].
  unfold __init__, _convert_layers, __attrs_post_init__. monad_unfold.
  cbn [self _layers defaultLayer LayerSet._layers LayerSet.defaultLayer].
  rewrite bool_decide_eq_false_2 by (simpl; lia).
  destruct (od_get DEFAULT_LAYER_NAME (p :: q :: d)); reflexivity.
Qed.

Lemma init_several_witness :
  __init__ (AnOrderedDict [("a", LayerRef 1); ("b", LayerRef 0)]) None two_layers
  = (inl (ValueError (Str "default layer not specified")),
     mkSt (LayerSet.mk [("a", LayerRef 1); ("b", LayerRef 0)] None None)
       (heap two_layers) (trace two_layers)).
Proof.
  apply (init_several two_layers [("a", LayerRef 1); ("b", LayerRef 0)]).
  simpl. lia.
Defined.

(** X16. Whenever the constructor returns, the layer set it leaves is not
    empty, its default layer is one of its entries, as the same object, and
    it has no reader. *)
Theorem init_establishes (value : layers_arg) (default : option entry) st st' :
  __init__ value default st = (inr tt, st') ->
  _layers (self st') ≠ []
  /\ default_in_set st' = true
  /\ _reader (self st') = None.
Proof.
  unfold __init__. unfold bind at 1.
  destruct (_convert_layers value st) as [[e|layers] st1]; [discriminate|].
  unfold bind at 1, put_self at 1. unfold __attrs_post_init__.
  unfold bind at 1, get_self at 1.
  cbn [self _layers defaultLayer LayerSet._layers LayerSet.defaultLayer].
  destruct layers as [|p layers].
  - destruct default as [dflt|]; [discriminate|].
    unfold newLayer. monad_unfold. simpl. intros H. inversion H; subst; clear H.
    simpl. split; [discriminate|]. split; [|reflexivity].
    unfold default_in_set, entry_is. simpl.
    rewrite bool_decide_eq_true_2 by reflexivity. reflexivity.
  - destruct default as [dflt|].
    + destruct (existsb (fun layer => entry_is layer dflt) (od_values (p :: layers))) eqn:He;
        [|discriminate].
      unfold ret. intros H. inversion H; subst; clear H. simpl.
      split; [discriminate|]. split; [|reflexivity].
      unfold default_in_set. simpl. exact He.
    + destruct (bool_decide (length (p :: layers) = 1)).
      { unfold lift, next, bind, raise. discriminate. }
      destruct (od_get DEFAULT_LAYER_NAME (p :: layers)) as [layer|] eqn:Hget;
        [|discriminate].
      monad_unfold. simpl. intros H. inversion H; subst; clear H. simpl.
      split; [discriminate|]. split; [|reflexivity].
      unfold default_in_set. simpl. apply (od_get_in_values _ _ _ Hget).
Qed.

Lemma init_establishes_witness :
  _layers (self (__init__ (AnIterable []) None blank).2) ≠ []
  /\ default_in_set (__init__ (AnIterable []) None blank).2 = true
  /\ _reader (self (__init__ (AnIterable []) None blank).2) = None.
Proof.
  apply (init_establishes (AnIterable []) None blank). reflexivity.
Defined.

End Constructor.

(** ** Reading a layer set *)

Section Read.
Implicit Types (st : St) (n name : string).

Lemma fresh_names_fresh (seen order : list string) :
  NoDup seen -> NoDup (seen ++ fresh_names seen order).
Proof.
  revert seen. induction order as [|a order IH]; intros seen Hnd; simpl.
  - rewrite app_nil_r. assumption.
  - destruct (decide (a ∈ seen)) as [Hin|Hin]; [apply IH; assumption|].
    replace (seen ++ a :: fresh_names (seen ++ [a]) order)
      with ((seen ++ [a]) ++ fresh_names (seen ++ [a]) order)
      by (rewrite <- app_assoc; reflexivity).
    apply IH. apply NoDup_app. split; [assumption|]. split.
    + intros x Hx Hx'. apply list_elem_of_singleton in Hx'. subst. contradiction.
    + apply NoDup_singleton.
Qed.

Lemma read_entry_ok_mono lazy st st' (layers : list (string * entry)) :
  heap st `prefix_of` heap st' ->
  Forall (read_entry_ok lazy st) layers -> Forall (read_entry_ok lazy st') layers.
Proof.
  intros Hpre H. eapply Forall_impl; [exact H|].
  intros [k [|l]]; unfold read_entry_ok; simpl; [auto|].
  apply prefix_length in Hpre. lia.
Qed.

Lemma read_loop_spec reader lazy dn (names : list string) layers dflt st :
  Forall (read_entry_ok lazy st) layers ->
  exists layers' dflt' st',
    read_loop reader lazy dn names layers dflt st = (inr (layers', dflt'), st')
    /\ self st' = self st
    /\ heap st `prefix_of` heap st'
    /\ od_keys layers' = od_keys layers ++ fresh_names (od_keys layers) names
    /\ Forall (read_entry_ok lazy st') layers'
    /\ (dn ∈ names \/ (exists l, dflt = Some (LayerRef l) /\ od_get dn layers = Some (LayerRef l)) ->
        exists l, dflt' = Some (LayerRef l) /\ od_get dn layers' = Some (LayerRef l))
    /\ (dn ∉ names -> dflt' = dflt)
    /\ (forall n, n ∉ names -> od_get n layers' = od_get n layers)
    /\ (forall n, n ∈ names ->
          match od_get n layers' with
          | Some (LayerRef l) => heap st' !! l = Some (Layer.mk n (glyphSet reader n))
          | Some NOT_LOADED => lazy = true /\ n ≠ dn
          | None => False
          end).
Proof.
  revert layers dflt st. induction names as [|a names IH]; intros layers dflt st Hok.
  - exists layers, dflt, st. split; [reflexivity|]. split; [reflexivity|].
    split; [reflexivity|]. split; [simpl; by rewrite app_nil_r|].
    split; [assumption|]. split.
    { intros [Hn|H]; [|assumption]. apply elem_of_nil in Hn. destruct Hn. }
    split; [reflexivity|]. split; [reflexivity|].
    intros n Hn. apply elem_of_nil in Hn. destruct Hn.
  - cbn [read_loop].
    destruct (bool_decide (a = dn) || negb lazy) eqn:Hload.
    + (* the layer is loaded *)
      set (isDefault := bool_decide (a = dn)) in *.
      set (st1 := mkSt (self st) (heap st ++ [Layer.mk a (glyphSet reader a)])
                    (trace st ++ load_events reader a lazy isDefault (length (heap st)))).
      assert (_loadLayer reader a lazy isDefault st = (inr (length (heap st)), st1)) as Hrun1.
      { unfold _loadLayer. monad_unfold. simpl. unfold st1, load_events.
        rewrite <- app_assoc. reflexivity. }
      unfold bind at 1. rewrite Hrun1.
      assert (heap st `prefix_of` heap st1) as Hpre1 by (apply prefix_app_r; reflexivity).
      destruct (IH (od_set a (LayerRef (length (heap st))) layers)
                   (if isDefault then Some (LayerRef (length (heap st))) else dflt) st1)
        as (layers' & dflt' & st' & Hrun & Hself & Hpre & Hkeys & Hok' & Hdn & Hdn' & Hoth & Hin).
      { apply Forall_od_set.
        - eapply read_entry_ok_mono; eassumption.
        - unfold read_entry_ok, st1. simpl. rewrite length_app. simpl. lia. }
      exists layers', dflt', st'. split; [assumption|]. split; [assumption|].
      split; [etrans; eassumption|]. split.
      { rewrite Hkeys, od_keys_set. simpl.
        destruct (decide (a ∈ od_keys layers)); [reflexivity|].
        rewrite <- app_assoc. reflexivity. }
      split; [assumption|]. split.
      { intros H. apply Hdn. unfold isDefault.
        destruct (decide (a = dn)) as [->|Hne].
        - right. rewrite bool_decide_eq_true_2 by reflexivity.
          eexists. split; [reflexivity|]. apply od_get_set_eq.
        - rewrite bool_decide_eq_false_2 by assumption.
          destruct H as [H|(l & Hd & Hl)].
          + left. apply elem_of_cons in H as [H|H]; [congruence | assumption].
          + right. exists l. split; [assumption|]. rewrite od_get_set_ne; assumption. }
      split.
      { intros H. apply not_elem_of_cons in H as [Hne H]. rewrite Hdn' by assumption.
        unfold isDefault. rewrite bool_decide_eq_false_2 by congruence. reflexivity. }
      split.
      { intros n Hn. apply not_elem_of_cons in Hn as [Hne Hn].
        rewrite Hoth by assumption. apply od_get_set_ne. congruence. }
      intros n Hn. destruct (decide (n ∈ names)) as [Hn'|Hn']; [apply Hin; assumption|].
      apply elem_of_cons in Hn as [->|Hn]; [|contradiction].
      rewrite Hoth by assumption. rewrite od_get_set_eq.
      eapply prefix_lookup_Some; [|exact Hpre].
      unfold st1. simpl. rewrite lookup_app_r, Nat.sub_diag by lia. reflexivity.
    + (* the layer stays pending *)
      apply orb_false_iff in Hload as [Hdef Hlazy].
      apply bool_decide_eq_false in Hdef. apply negb_false_iff in Hlazy.
      destruct (IH (od_set a NOT_LOADED layers) dflt st)
        as (layers' & dflt' & st' & Hrun & Hself & Hpre & Hkeys & Hok' & Hdn & Hdn' & Hoth & Hin).
      { apply Forall_od_set; [assumption|]. unfold read_entry_ok. simpl. assumption. }
      exists layers', dflt', st'. split; [assumption|]. split; [assumption|].
      split; [assumption|]. split.
      { rewrite Hkeys, od_keys_set. simpl.
        destruct (decide (a ∈ od_keys layers)); [reflexivity|].
        rewrite <- app_assoc. reflexivity. }
      split; [assumption|]. split.
      { intros H. apply Hdn. destruct H as [H|(l & Hd & Hl)].
        - left. apply elem_of_cons in H as [H|H]; [congruence | assumption].
        - right. exists l. split; [assumption|]. rewrite od_get_set_ne; assumption. }
      split.
      { intros H. apply not_elem_of_cons in H as [Hne H]. apply Hdn'. assumption. }
      split.
      { intros n Hn. apply not_elem_of_cons in Hn as [Hne Hn].
        rewrite Hoth by assumption. apply od_get_set_ne. congruence. }
      intros n Hn. destruct (decide (n ∈ names)) as [Hn'|Hn']; [apply Hin; assumption|].
      apply elem_of_cons in Hn as [->|Hn]; [|contradiction].
      rewrite Hoth by assumption. rewrite od_get_set_eq. split; assumption.
Qed.

End Read.

Section ReadFacts.
Implicit Types (st : St) (n name : string).

(** How [read] ends once its loop has found the default layer. *)
Lemma read_run reader lazy st layers' l st' :
  read_loop reader lazy (getDefaultLayerName reader) (getLayerNames reader) [] None st
  = (inr (layers', Some (LayerRef l)), st') ->
  od_get (getDefaultLayerName reader) layers' = Some (LayerRef l) ->
  read reader lazy st
  = (inr tt, mkSt (LayerSet.mk layers' (Some (LayerRef l))
                     (if lazy then Some reader else None))
               (heap st') (trace st')).
Proof.
  intros Hrun Hl. unfold read. unfold bind at 1. rewrite Hrun. cbn [fst snd].
  unfold __init__, _convert_layers, __attrs_post_init__. monad_unfold. simpl.
  destruct layers' as [|p rest] eqn:Hlayers; [discriminate Hl|].
  rewrite <- Hlayers in *. simpl.
  rewrite (od_get_in_values _ _ _ Hl). simpl.
  destruct lazy; reflexivity.
Qed.

(** X17. When the default layer name the store reports is none of the layer
    names it lists, [read] raises [AssertionError], lazy or not, and no layer
    set is built: [self] is as it was. *)
Theorem read_missing_default reader lazy st :
  getDefaultLayerName reader ∉ getLayerNames reader ->
  exists st',
    read reader lazy st = (inl AssertionError, st')
    /\ self st' = self st.
Proof.
  intros Hd.
  destruct (read_loop_spec reader lazy (getDefaultLayerName reader) (getLayerNames reader)
              [] None st) as (layers' & dflt' & st' & Hrun & Hself & _ & _ & _ & _ & Hdn & _).
  { constructor. }
  rewrite (Hdn Hd) in Hrun.
  exists st'. split; [|assumption].
  unfold read. unfold bind at 1. rewrite Hrun. reflexivity.
Qed.

Lemma read_missing_default_witness :
  exists st',
    read (mkStore 3 "public.default" ["bg"; "fg"] (fun _ => ∅) true) true two_layers
    = (inl AssertionError, st')
    /\ self st' = self two_layers.
Proof.
  apply (read_missing_default (mkStore 3 "public.default" ["bg"; "fg"] (fun _ => ∅) true)
           true two_layers).
  simpl. intros H. apply list_elem_of_In in H. simpl in H.
  destruct H as [H|[H|[]]]; discriminate H.
Defined.

(** X18. When the default layer name is one of the listed names, [read]
    returns a layer set in a state the other methods can work in: no name is
    a key twice, every loaded entry names an object of the heap, a pending
    entry has a reader to be loaded from, and the default layer is one of the
    entries. The layers come in the order of the first occurrences in the
    list of the store, which is the list itself when it repeats no name. The
    reader is kept by a lazy read and by no other. *)
Theorem read_establishes reader lazy st :
  getDefaultLayerName reader ∈ getLayerNames reader ->
  exists st1,
    read reader lazy st = (inr tt, st1)
    /\ wf st1
    /\ default_in_set st1 = true
    /\ od_keys (_layers (self st1)) = fresh_names [] (getLayerNames reader)
    /\ (NoDup (getLayerNames reader) -> od_keys (_layers (self st1)) = getLayerNames reader)
    /\ _reader (self st1) = (if lazy then Some reader else None).
Proof.
  intros Hd.
  destruct (read_loop_spec reader lazy (getDefaultLayerName reader) (getLayerNames reader)
              [] None st)
    as (layers' & dflt' & st' & Hrun & Hself & _ & Hkeys & Hok & Hdn & _ & _ & _).
  { constructor. }
  destruct Hdn as (l & -> & Hl); [left; assumption|].
  eexists. split; [apply (read_run _ _ _ _ _ _ Hrun Hl)|].
  simpl in Hkeys. split; [|split; [|split; [|split]]].
  - split; simpl.
    + rewrite Hkeys. apply (fresh_names_fresh [] (getLayerNames reader)). constructor.
    + eapply Forall_impl; [exact Hok|].
      intros [k [|l']]; unfold read_entry_ok, entry_ok; simpl; [|auto].
      intros ->. eauto.
  - unfold default_in_set. simpl. apply (od_get_in_values _ _ _ Hl).
  - assumption.
  - intros Hnd. simpl. rewrite Hkeys. apply fresh_names_NoDup; [assumption|].
    intros n _. apply not_elem_of_nil.
  - reflexivity.
Qed.

Lemma read_establishes_witness :
  exists st1,
    read example_store false blank = (inr tt, st1)
    /\ wf st1
    /\ default_in_set st1 = true
    /\ od_keys (_layers (self st1)) = [DEFAULT_LAYER_NAME; "bg"; "fg"]
    /\ _reader (self st1) = None.
Proof.
  destruct (read_establishes example_store false blank)
    as (st1 & H1 & H2 & H3 & _ & H4 & H5).
  - apply list_elem_of_In. simpl. tauto.
  - exists st1. split; [assumption|]. split; [assumption|]. split; [assumption|].
    split; [|assumption].
    apply H4. apply (bool_decide_unpack (NoDup [DEFAULT_LAYER_NAME; "bg"; "fg"])).
    vm_compute. exact I.
Defined.

(** X19. A read that is not lazy loads every layer the store lists: after
    it no entry is pending, and the entry of each listed name is an object
    that has the name and the glyphs the store holds under it. *)
Theorem read_eager_loads_all reader st :
  getDefaultLayerName reader ∈ getLayerNames reader ->
  exists st1,
    read reader false st = (inr tt, st1)
    /\ (forall n, n ∈ getLayerNames reader ->
          exists l, od_get n (_layers (self st1)) = Some (LayerRef l)
                    /\ heap st1 !! l = Some (Layer.mk n (glyphSet reader n)))
    /\ (forall n, od_get n (_layers (self st1)) ≠ Some NOT_LOADED).
Proof.
  intros Hd.
  destruct (read_loop_spec reader false (getDefaultLayerName reader) (getLayerNames reader)
              [] None st)
    as (layers' & dflt' & st' & Hrun & Hself & _ & Hkeys & Hok & Hdn & _ & _ & Hin).
  { constructor. }
  destruct Hdn as (l & -> & Hl); [left; assumption|].
  eexists. split; [apply (read_run _ _ _ _ _ _ Hrun Hl)|]. simpl. split.
  - intros n Hn. specialize (Hin n Hn).
    destruct (od_get n layers') as [[|l']|]; [destruct Hin; discriminate | | destruct Hin].
    exists l'. split; [reflexivity | assumption].
  - intros n Hn. apply od_get_Some_elem in Hn.
    rewrite Forall_forall in Hok. specialize (Hok _ Hn).
    unfold read_entry_ok in Hok. simpl in Hok. discriminate Hok.
Qed.

Lemma read_eager_loads_all_witness :
  exists st1,
    read example_store false blank = (inr tt, st1)
    /\ (exists l, od_get "fg" (_layers (self st1)) = Some (LayerRef l)
                  /\ heap st1 !! l = Some (Layer.mk "fg" (glyphSet example_store "fg"))).
Proof.
  destruct (read_eager_loads_all example_store blank) as (st1 & H1 & H2 & _).
  - apply list_elem_of_In. simpl. tauto.
  - exists st1. split; [assumption|]. apply H2.
    apply list_elem_of_In. simpl. tauto.
Defined.

End ReadFacts.

(** ** Renaming a glyph that can be renamed *)

Section RenameGlyphMoves.
Implicit Types (st : St) (n name newName : string).

Lemma with_glyphs_same st l L : heap st !! l = Some L -> with_glyphs st l L (Layer._glyphs L) = st.
Proof.
  intros HL. unfold with_glyphs. destruct L as [nm gl]. simpl.
  rewrite list_insert_id by assumption. destruct st. reflexivity.
Qed.

Lemma prepare_overwrite_acts newName :
  acts_on_glyphs (renameGlyph_prepare newName true) (delete newName).
Proof.
  intros l L st HL. unfold renameGlyph_prepare, layer_contains, layer_delitem.
  monad_unfold. rewrite HL. unfold Layer.__contains__, Layer.__delitem__.
  destruct (Layer._glyphs L !! newName) as [g|] eqn:Hg.
  - rewrite bool_decide_eq_true_2 by eauto. rewrite HL, Hg. reflexivity.
  - rewrite bool_decide_eq_false_2 by (intros [? ?]; discriminate).
    rewrite delete_id by assumption. rewrite with_glyphs_same by assumption. reflexivity.
Qed.

Lemma move_acts name newName :
  acts_on_glyphs (renameGlyph_move name newName) (glyphs_moved name newName).
Proof.
  intros l L st HL.
  pose proof (lookup_lt_Some _ _ _ HL) as Hlt.
  unfold renameGlyph_move, layer_contains, layer_pop, layer_setitem, layer_set_glyph_name.
  unfold glyphs_moved. monad_unfold. rewrite HL.
  unfold Layer.__contains__, Layer.pop.
  destruct (Layer._glyphs L !! name) as [g|] eqn:Hg.
  - rewrite bool_decide_eq_true_2 by eauto. rewrite HL, Hg. simpl.
    rewrite list_lookup_insert_eq by assumption.
    simpl. rewrite list_lookup_insert_eq by (rewrite length_insert; assumption).
    unfold with_glyphs, Layer.__setitem__, Layer.set_glyph_name. simpl.
    rewrite !list_insert_insert_eq. rewrite alter_insert_eq. reflexivity.
  - rewrite bool_decide_eq_false_2 by (intros [? ?]; discriminate).
    rewrite with_glyphs_same by assumption. reflexivity.
Qed.

Lemma with_glyphs_spec st l L n glyphs :
  wf st -> no_alias st ->
  od_get n (_layers (self st)) = Some (LayerRef l) ->
  heap st !! l = Some L ->
  wf (with_glyphs st l L glyphs)
  /\ no_alias (with_glyphs st l L glyphs)
  /\ (forall m, glyphs_at (with_glyphs st l L glyphs) m
                = if decide (m = n) then Some glyphs else glyphs_at st m).
Proof.
  intros Hwf Hna Hn HL. pose proof (lookup_lt_Some _ _ _ HL) as Hlt.
  split; [|split].
  - destruct Hwf as [Hk He]. split; [assumption|]. simpl.
    eapply Forall_impl; [exact He|]. intros [k [|l']]; simpl; [auto|].
    rewrite length_insert. auto.
  - exact Hna.
  - intros m. unfold glyphs_at. simpl. destruct (decide (m = n)) as [->|Hne].
    + rewrite Hn. simpl. rewrite list_lookup_insert_eq by assumption. reflexivity.
    + destruct (od_get m (_layers (self st))) as [[|l']|] eqn:Hm; simpl; try reflexivity.
      rewrite list_lookup_insert_ne; [reflexivity|].
      intros <-. apply Hne. eapply Hna; eassumption.
Qed.

Lemma loaded_no_alias st reader n lazy default :
  wf st -> no_alias st -> od_get n (_layers (self st)) = Some NOT_LOADED ->
  no_alias (loaded st reader n lazy default).
Proof.
  intros Hwf Hna Hn n1 n2 l. simpl. rewrite !od_get_set.
  destruct (decide (n = n1)) as [<-|H1], (decide (n = n2)) as [<-|H2]; intros E1 E2.
  - reflexivity.
  - simplify_eq. apply (wf_lookup _ _ _ Hwf) in E2. simpl in E2. lia.
  - simplify_eq. apply (wf_lookup _ _ _ Hwf) in E1. simpl in E1. lia.
  - eapply Hna; eassumption.
Qed.

(** One round of [__iter__], with all that is known after it. *)
Lemma iter_step_full st n :
  wf st -> no_alias st -> n ∈ od_keys (_layers (self st)) ->
  exists l L st',
    __iter__step n st = (inr l, st')
    /\ heap st' !! l = Some L
    /\ glyphs_at st n = Some (Layer._glyphs L)
    /\ od_get n (_layers (self st')) = Some (LayerRef l)
    /\ wf st' /\ no_alias st' /\ extends st st'.
Proof.
  intros Hwf Hna Hin. apply od_get_is_Some in Hin as [e He].
  pose proof (wf_lookup _ _ _ Hwf He) as Hok.
  unfold __iter__step. monad_unfold. rewrite He.
  destruct e as [|l]; simpl in Hok.
  - destruct Hok as [reader Hr].
    rewrite (loadLayer_pending _ reader) by assumption.
    eexists _, _, _. split; [reflexivity|]. split.
    { simpl. rewrite lookup_app_r, Nat.sub_diag by lia. reflexivity. }
    split.
    { unfold glyphs_at. rewrite He. simpl. rewrite Hr. reflexivity. }
    split; [apply od_get_set_eq|].
    split; [by apply loaded_wf|]. split; [by apply loaded_no_alias | by apply loaded_extends].
  - apply lookup_lt_is_Some in Hok as [L HL].
    exists l, L, st. split; [reflexivity|]. split; [assumption|]. split.
    { unfold glyphs_at. rewrite He. unfold mbind, option_bind, entry_glyphs.
      rewrite HL. reflexivity. }
    split; [assumption|]. split; [assumption|]. split; [assumption | apply extends_refl].
Qed.

End RenameGlyphMoves.

Section RenameGlyphSucceeds.
Implicit Types (st : St) (n name newName : string).

Lemma for_layer_in_acts body f (names : list string) st :
  acts_on_glyphs body f -> wf st -> no_alias st -> NoDup names ->
  (forall n, n ∈ names -> n ∈ od_keys (_layers (self st))) ->
  exists st',
    for_layer_in names body st = (inr tt, st')
    /\ wf st' /\ no_alias st'
    /\ od_keys (_layers (self st')) = od_keys (_layers (self st))
    /\ defaultLayer (self st') = defaultLayer (self st)
    /\ _reader (self st') = _reader (self st)
    /\ (forall m, glyphs_at st' m
                  = if decide (m ∈ names) then f <$> glyphs_at st m else glyphs_at st m).
Proof.
  intros Hacts. revert st. induction names as [|a names IH]; intros st Hwf Hna Hnd Hin.
  - exists st. split; [reflexivity|]. repeat (split; [auto|]).
    intros m. destruct (decide (m ∈ [])) as [Hm|]; [|reflexivity].
    apply elem_of_nil in Hm. destruct Hm.
  - apply NoDup_cons in Hnd as [Ha Hnd].
    destruct (iter_step_full st a Hwf Hna)
      as (l & L & st1 & Hstep & HL & Hg & Hget1 & Hwf1 & Hna1 & Hext1); [apply Hin; left|].
    destruct (with_glyphs_spec st1 l L a (f (Layer._glyphs L)) Hwf1 Hna1 Hget1 HL)
      as (Hwf2 & Hna2 & Hg2).
    destruct (IH (with_glyphs st1 l L (f (Layer._glyphs L))) Hwf2 Hna2 Hnd)
      as (st' & Hrun & Hwf' & Hna' & Hkeys & Hdef & Hrd & Hg').
    { intros n Hn. simpl. rewrite (ext_keys _ _ Hext1). apply Hin. right. assumption. }
    exists st'. cbn [for_layer_in]. unfold bind at 1. rewrite Hstep.
    unfold bind at 1. rewrite (Hacts l L st1 HL).
    split; [assumption|]. split; [assumption|]. split; [assumption|].
    split; [rewrite Hkeys; simpl; apply (ext_keys _ _ Hext1)|].
    split; [rewrite Hdef; simpl; apply (ext_default _ _ Hext1)|].
    split; [rewrite Hrd; simpl; apply (ext_reader _ _ Hext1)|].
    intros m. rewrite Hg', !Hg2. destruct (decide (m = a)) as [->|Hne].
    + rewrite decide_False by assumption. rewrite decide_True by left.
      rewrite Hg. reflexivity.
    + rewrite (ext_glyphs _ _ Hext1). destruct (decide (m ∈ names)) as [Hm|Hm].
      * rewrite decide_True by (right; assumption). reflexivity.
      * rewrite decide_False; [reflexivity|].
        rewrite not_elem_of_cons. split; assumption.
Qed.

Lemma any_layer_in_full g (names : list string) st :
  wf st -> no_alias st -> (forall n, n ∈ names -> n ∈ od_keys (_layers (self st))) ->
  exists st',
    any_layer_in names (fun layer => layer_contains layer g) st
    = (inr (existsb (in_layer st g) names), st')
    /\ wf st' /\ no_alias st' /\ extends st st'.
Proof.
  revert st. induction names as [|n names IH]; intros st Hwf Hna Hin; simpl.
  - exists st. split; [reflexivity|]. split; [assumption|].
    split; [assumption | apply extends_refl].
  - destruct (iter_step_full st n Hwf Hna)
      as (l & L & st1 & Hstep & HL & Hg & _ & Hwf1 & Hna1 & Hext1); [apply Hin; left|].
    assert (layer_contains l g st1 = (inr (in_layer st g n), st1)) as Hc.
    { unfold layer_contains. monad_unfold. rewrite HL.
      unfold in_layer. rewrite Hg. reflexivity. }
    unfold bind at 1. rewrite Hstep. unfold bind at 1. rewrite Hc.
    destruct (in_layer st g n); simpl.
    + exists st1. split; [reflexivity|]. split; [assumption|]. split; assumption.
    + destruct (IH st1 Hwf1 Hna1) as (st' & Hrun & Hwf' & Hna' & Hext').
      { intros m Hm. rewrite (ext_keys _ _ Hext1). apply Hin. right. assumption. }
      exists st'. rewrite Hrun, (existsb_in_layer_extends _ _ _ _ Hext1).
      split; [reflexivity|]. split; [assumption|]. split; [assumption|].
      eapply extends_trans; eassumption.
Qed.

(** Where no layer holds the new name, the second loop does the same with
    and without [overwrite]. *)
Lemma prepare_absent g (names : list string) st :
  wf st -> (forall n, n ∈ names -> n ∈ od_keys (_layers (self st))) ->
  (forall n, n ∈ names -> in_layer st g n = false) ->
  exists st', forall overwrite,
    for_layer_in names (renameGlyph_prepare g overwrite) st = (inr tt, st').
Proof.
  revert st. induction names as [|a names IH]; intros st Hwf Hin Habs.
  - exists st. intros overwrite. reflexivity.
  - destruct (iter_step_contains st a g Hwf) as (l & st1 & Hstep & Hc & Hwf1 & Hext1).
    { apply Hin. left. }
    rewrite (Habs a) in Hc by left.
    destruct (IH st1 Hwf1) as (st' & Hrun).
    { intros m Hm. rewrite (ext_keys _ _ Hext1). apply Hin. right. assumption. }
    { intros m Hm. rewrite (in_layer_extends _ _ _ _ Hext1). apply Habs. right. assumption. }
    exists st'. intros overwrite. cbn [for_layer_in].
    unfold bind at 1. rewrite Hstep.
    assert (renameGlyph_prepare g overwrite l st1 = (inr tt, st1)) as Hbody.
    { unfold renameGlyph_prepare, bind. rewrite Hc. reflexivity. }
    unfold bind at 1. rewrite Hbody. apply Hrun.
Qed.

Lemma renameGlyph_overwrite_run name newName st :
  wf st -> no_alias st -> name ≠ newName ->
  (exists n, n ∈ od_keys (_layers (self st)) /\ in_layer st name n = true) ->
  exists st1 st2 st',
    any_layer_in (od_keys (_layers (self st))) (fun layer => layer_contains layer name) st
    = (inr true, st1)
    /\ wf st1 /\ extends st st1
    /\ for_layer_in (od_keys (_layers (self st1))) (renameGlyph_prepare newName true) st1
       = (inr tt, st2)
    /\ renameGlyph name newName true st = (inr tt, st')
    /\ wf st' /\ no_alias st'
    /\ od_keys (_layers (self st')) = od_keys (_layers (self st))
    /\ defaultLayer (self st') = defaultLayer (self st)
    /\ (forall n, n ∈ od_keys (_layers (self st)) ->
          glyphs_at st' n
          = glyphs_moved name newName <$> (delete newName <$> glyphs_at st n)).
Proof.
  intros Hwf Hna Hne Hold.
  destruct (any_layer_in_full name (od_keys (_layers (self st))) st Hwf Hna)
    as (st1 & Hany & Hwf1 & Hna1 & Hext1); [auto|].
  apply existsb_in_layer_true in Hold. rewrite Hold in Hany.
  destruct (for_layer_in_acts _ _ (od_keys (_layers (self st1))) st1
              (prepare_overwrite_acts newName) Hwf1 Hna1 (wf_keys _ Hwf1))
    as (st2 & Hrun2 & Hwf2 & Hna2 & Hkeys2 & Hdef2 & _ & Hg2); [auto|].
  destruct (for_layer_in_acts _ _ (od_keys (_layers (self st2))) st2
              (move_acts name newName) Hwf2 Hna2 (wf_keys _ Hwf2))
    as (st3 & Hrun3 & Hwf3 & Hna3 & Hkeys3 & Hdef3 & _ & Hg3); [auto|].
  exists st1, st2, st3. split; [assumption|]. split; [assumption|]. split; [assumption|].
  split; [assumption|]. split.
  { unfold renameGlyph. rewrite decide_False by assumption.
    unfold bind at 1. unfold any_layer_in_self, bind at 1, get_self.
    rewrite Hany. cbn [negb].
    unfold bind at 1. unfold for_layer_in_self at 1, bind at 1, get_self.
    rewrite Hrun2. unfold for_layer_in_self, bind, get_self. exact Hrun3. }
  split; [assumption|]. split; [assumption|].
  split; [rewrite Hkeys3, Hkeys2; apply (ext_keys _ _ Hext1)|].
  split; [rewrite Hdef3, Hdef2; apply (ext_default _ _ Hext1)|].
  intros n Hn. rewrite Hg3, Hg2, Hkeys2, (ext_keys _ _ Hext1).
  rewrite !decide_True by assumption. rewrite (ext_glyphs _ _ Hext1). reflexivity.
Qed.

End RenameGlyphSucceeds.

Section RenameGlyphTheorems.
Implicit Types (st : St) (n name newName : string).

Lemma glyphs_moved_lookup name newName (glyphs : gmap string Glyph.Glyph) :
  name ≠ newName ->
  glyphs_moved name newName (delete newName glyphs) !! name = None
  /\ (is_Some (glyphs_moved name newName (delete newName glyphs) !! newName)
      <-> is_Some (glyphs !! name)).
Proof.
  intros Hne. unfold glyphs_moved. rewrite lookup_delete_ne by congruence.
  destruct (glyphs !! name) as [g|] eqn:Hg.
  - split.
    + rewrite lookup_insert_ne by congruence. apply lookup_delete_eq.
    + rewrite lookup_insert_eq. split; eauto.
  - split.
    + rewrite lookup_delete_ne by congruence. assumption.
    + rewrite lookup_delete_eq. reflexivity.
Qed.

(** X20. With [overwrite], renaming a glyph some layer holds succeeds, and
    does two things to every layer of the set: the glyph under the new name,
    if there is one, is deleted, also in a layer that does not hold the old
    name; then the glyph under the old name, if there is one, is put under
    the new name and given that name. So afterwards no layer holds the old
    name, and a layer holds the new name exactly when it held the old one.
    The layers, their order and the default layer are as before. *)
Theorem renameGlyph_overwrite name newName st :
  wf st -> no_alias st -> name ≠ newName ->
  (exists n, n ∈ od_keys (_layers (self st)) /\ in_layer st name n = true) ->
  exists st',
    renameGlyph name newName true st = (inr tt, st')
    /\ od_keys (_layers (self st')) = od_keys (_layers (self st))
    /\ defaultLayer (self st') = defaultLayer (self st)
    /\ (forall n, n ∈ od_keys (_layers (self st)) ->
          glyphs_at st' n
          = glyphs_moved name newName <$> (delete newName <$> glyphs_at st n))
    /\ (forall n, n ∈ od_keys (_layers (self st)) ->
          in_layer st' name n = false
          /\ in_layer st' newName n = in_layer st name n).
Proof.
  intros Hwf Hna Hne Hold.
  destruct (renameGlyph_overwrite_run name newName st Hwf Hna Hne Hold)
    as (st1 & st2 & st' & _ & _ & _ & _ & Hrun & _ & _ & Hkeys & Hdef & Hg).
  exists st'. split; [assumption|]. split; [assumption|]. split; [assumption|].
  split; [assumption|].
  intros n Hn. unfold in_layer. rewrite (Hg n Hn).
  destruct (glyphs_at st n) as [m|]; simpl; [|split; reflexivity].
  destruct (glyphs_moved_lookup name newName m Hne) as [H1 H2]. split.
  - rewrite H1. apply bool_decide_eq_false_2. intros [? ?]; discriminate.
  - apply bool_decide_ext. exact H2.
Qed.

Lemma example_lazy_no_alias : no_alias example_lazy.
Proof.
  intros n1 n2 l. rewrite example_lazy_layers. simpl.
  repeat case_decide; intros E1 E2; simplify_eq; reflexivity.
Qed.

Lemma renameGlyph_overwrite_witness :
  exists st',
    renameGlyph "a" "b" true example_lazy = (inr tt, st')
    /\ glyphs_at st' "fg"
       = glyphs_moved "a" "b" <$> (delete "b" <$> glyphs_at example_lazy "fg")
    /\ in_layer st' "a" "bg" = false.
Proof.
  destruct (renameGlyph_overwrite "a" "b" example_lazy)
    as (st' & H1 & _ & _ & H2 & H3).
  - exact example_lazy_wf.
  - exact example_lazy_no_alias.
  - discriminate.
  - apply existsb_in_layer_true. vm_compute. reflexivity.
  - exists st'. split; [assumption|]. split.
    + apply H2. apply od_contains_true. vm_compute. reflexivity.
    + apply H3. apply od_contains_true. vm_compute. reflexivity.
Defined.

(** X21. Without [overwrite], renaming a glyph some layer holds to a name no
    layer holds succeeds: in every layer that holds the old name the glyph is
    put under the new name and given that name, and a layer that does not
    hold the old name keeps its glyphs. The layers and their order are as
    before. *)
Theorem renameGlyph_no_conflict name newName st :
  wf st -> no_alias st -> name ≠ newName ->
  (exists n, n ∈ od_keys (_layers (self st)) /\ in_layer st name n = true) ->
  (forall n, n ∈ od_keys (_layers (self st)) -> in_layer st newName n = false) ->
  exists st',
    renameGlyph name newName false st = (inr tt, st')
    /\ od_keys (_layers (self st')) = od_keys (_layers (self st))
    /\ defaultLayer (self st') = defaultLayer (self st)
    /\ (forall n, n ∈ od_keys (_layers (self st)) ->
          glyphs_at st' n = glyphs_moved name newName <$> glyphs_at st n).
Proof.
  intros Hwf Hna Hne Hold Habs.
  destruct (renameGlyph_overwrite_run name newName st Hwf Hna Hne Hold)
    as (st1 & st2 & st' & Hany & Hwf1 & Hext1 & Hrun2 & Hrun & _ & _ & Hkeys & Hdef & Hg).
  destruct (prepare_absent newName (od_keys (_layers (self st1))) st1 Hwf1)
    as (st2' & Hprep); [auto | |].
  { intros n Hn. rewrite (in_layer_extends _ _ _ _ Hext1). apply Habs.
    rewrite <- (ext_keys _ _ Hext1). assumption. }
  exists st'. split; [|split; [assumption | split; [assumption|]]].
  - rewrite <- Hrun. unfold renameGlyph. rewrite !decide_False by assumption.
    unfold any_layer_in_self, for_layer_in_self. unfold bind, get_self.
    rewrite Hany. cbn [negb]. rewrite (Hprep false), (Hprep true). reflexivity.
  - intros n Hn. rewrite (Hg n Hn). specialize (Habs n Hn). unfold in_layer in Habs.
    destruct (glyphs_at st n) as [m|]; simpl; [|reflexivity].
    apply bool_decide_eq_false in Habs.
    rewrite delete_id; [reflexivity|].
    destruct (m !! newName) eqn:E; [|reflexivity]. exfalso. apply Habs. eauto.
Qed.

Lemma renameGlyph_no_conflict_witness :
  exists st',
    renameGlyph "a" "d" false example_lazy = (inr tt, st')
    /\ glyphs_at st' "bg" = glyphs_moved "a" "d" <$> glyphs_at example_lazy "bg".
Proof.
  destruct (renameGlyph_no_conflict "a" "d" example_lazy)
    as (st' & H1 & _ & _ & H2).
  - exact example_lazy_wf.
  - exact example_lazy_no_alias.
  - discriminate.
  - apply existsb_in_layer_true. vm_compute. reflexivity.
  - apply existsb_in_layer_false. vm_compute. reflexivity.
  - exists st'. split; [assumption|].
    apply H2. apply od_contains_true. vm_compute. reflexivity.
Defined.

End RenameGlyphTheorems.

(** ** Iterating over the set *)

Section Iteration.
Implicit Types (st : St) (n name : string).

Lemma iter_step_entry st n :
  wf st -> n ∈ od_keys (_layers (self st)) ->
  exists l st',
    __iter__step n st = (inr l, st')
    /\ od_get n (_layers (self st')) = Some (LayerRef l)
    /\ wf st' /\ extends st st'
    /\ (forall e, od_get n (_layers (self st)) = Some e ->
          trace st' = trace st ++
            match e, _reader (self st) with
            | NOT_LOADED, Some reader => load_events reader n true false l
            | _, _ => []
            end).
Proof.
  intros Hwf Hin. apply od_get_is_Some in Hin as [e He].
  pose proof (wf_lookup _ _ _ Hwf He) as Hok.
  unfold __iter__step. monad_unfold. rewrite He.
  destruct e as [|l]; simpl in Hok.
  - destruct Hok as [reader Hr].
    rewrite (loadLayer_pending _ reader) by assumption.
    eexists _, _. split; [reflexivity|]. split; [apply od_get_set_eq|].
    split; [by apply loaded_wf|]. split; [by apply loaded_extends|].
    intros e Heq. simplify_eq. rewrite Hr. reflexivity.
  - exists l, st. split; [reflexivity|]. split; [assumption|].
    split; [assumption|]. split; [apply extends_refl|].
    intros e Heq. simplify_eq. rewrite app_nil_r. reflexivity.
Qed.

Lemma iterate_spec (names : list string) st :
  wf st -> (forall n, n ∈ names -> n ∈ od_keys (_layers (self st))) ->
  exists ls st',
    iterate names st = (inr ls, st')
    /\ wf st' /\ extends st st'
    /\ Forall2 (fun n l => od_get n (_layers (self st')) = Some (LayerRef l)) names ls.
Proof.
  revert st. induction names as [|a names IH]; intros st Hwf Hin.
  - exists [], st. split; [reflexivity|]. split; [assumption|].
    split; [apply extends_refl | constructor].
  - destruct (iter_step_entry st a Hwf) as (l & st1 & Hstep & Hget & Hwf1 & Hext1 & _).
    { apply Hin. left. }
    destruct (IH st1 Hwf1) as (ls & st' & Hrun & Hwf' & Hext' & Hall).
    { intros n Hn. rewrite (ext_keys _ _ Hext1). apply Hin. right. assumption. }
    exists (l :: ls), st'. cbn [iterate]. unfold bind at 1. rewrite Hstep.
    unfold bind at 1. rewrite Hrun. split; [reflexivity|]. split; [assumption|].
    split; [eapply extends_trans; eassumption|].
    constructor; [|assumption]. apply (ext_loaded _ _ Hext'). assumption.
Qed.

Lemma iterate_loaded (names : list string) (ls : list loc) st :
  Forall2 (fun n l => od_get n (_layers (self st)) = Some (LayerRef l)) names ls ->
  iterate names st = (inr ls, st).
Proof.
  intros H. induction H as [|n l names ls Hn H IH]; [reflexivity|].
  cbn [iterate]. unfold bind at 1. unfold __iter__step. monad_unfold.
  rewrite Hn. rewrite IH. reflexivity.
Qed.

(** X22. Iterating over a layer set yields one layer for each name, in the
    order of the set, and loads the pending entries on the way; the layers,
    their order, the default layer and the glyphs of every layer are as
    before. The entries are loaded for good: iterating again yields the same
    layer objects and changes nothing, the trace included. *)
Theorem list_self_memoizes st :
  wf st ->
  exists ls st',
    list_self st = (inr ls, st')
    /\ Forall2 (fun n l => od_get n (_layers (self st')) = Some (LayerRef l))
         (od_keys (_layers (self st))) ls
    /\ extends st st'
    /\ list_self st' = (inr ls, st').
Proof.
  intros Hwf.
  destruct (iterate_spec (od_keys (_layers (self st))) st Hwf)
    as (ls & st' & Hrun & Hwf' & Hext & Hall); [auto|].
  exists ls, st'. unfold list_self. unfold bind, get_self.
  split; [assumption|]. split; [assumption|]. split; [assumption|].
  rewrite (ext_keys _ _ Hext). apply iterate_loaded. assumption.
Qed.

Lemma list_self_memoizes_witness :
  exists ls st',
    list_self example_lazy = (inr ls, st')
    /\ extends example_lazy st'
    /\ list_self st' = (inr ls, st').
Proof.
  destruct (list_self_memoizes example_lazy example_lazy_wf)
    as (ls & st' & H1 & _ & H2 & H3).
  exists ls, st'. split; [assumption|]. split; assumption.
Defined.

Lemma unlazify_run (names : list string) st :
  wf st -> (forall n, n ∈ names -> n ∈ od_keys (_layers (self st))) ->
  exists st',
    for_layer_in names layer_unlazify st = (inr tt, st')
    /\ wf st' /\ extends st st'
    /\ (forall n, n ∈ names ->
          exists l, od_get n (_layers (self st')) = Some (LayerRef l)).
Proof.
  revert st. induction names as [|a names IH]; intros st Hwf Hin.
  - exists st. split; [reflexivity|]. split; [assumption|].
    split; [apply extends_refl|]. intros n Hn. apply elem_of_nil in Hn. destruct Hn.
  - destruct (iter_step_entry st a Hwf) as (l & st1 & Hstep & Hget & Hwf1 & Hext1 & _).
    { apply Hin. left. }
    destruct (IH st1 Hwf1) as (st' & Hrun & Hwf' & Hext' & Hall).
    { intros n Hn. rewrite (ext_keys _ _ Hext1). apply Hin. right. assumption. }
    pose proof (wf_lookup _ _ _ Hwf1 Hget) as Hl. simpl in Hl.
    apply lookup_lt_is_Some in Hl as [L HL].
    exists st'. cbn [for_layer_in]. unfold bind at 1. rewrite Hstep.
    assert (layer_unlazify l st1 = (inr tt, st1)) as Hbody.
    { unfold layer_unlazify. monad_unfold. rewrite HL. reflexivity. }
    unfold bind at 1. rewrite Hbody.
    split; [assumption|]. split; [assumption|].
    split; [eapply extends_trans; eassumption|].
    intros n Hn. apply elem_of_cons in Hn as [->|Hn]; [|apply Hall; assumption].
    exists l. apply (ext_loaded _ _ Hext'). assumption.
Qed.

(** X23. [unlazify] leaves no entry pending: after it every name of the set
    has a loaded layer object. It changes neither the layers, nor their
    order, nor the default layer, nor the glyphs of any layer. *)
Theorem unlazify_loads_all st :
  wf st ->
  exists st',
    unlazify st = (inr tt, st')
    /\ (forall n, n ∈ od_keys (_layers (self st')) ->
          exists l, od_get n (_layers (self st')) = Some (LayerRef l))
    /\ extends st st'.
Proof.
  intros Hwf.
  destruct (unlazify_run (od_keys (_layers (self st))) st Hwf)
    as (st' & Hrun & _ & Hext & Hall); [auto|].
  exists st'. split; [exact Hrun|]. split; [|assumption].
  intros n Hn. apply Hall. rewrite <- (ext_keys _ _ Hext). assumption.
Qed.

Lemma unlazify_loads_all_witness :
  exists st',
    unlazify example_lazy = (inr tt, st')
    /\ (exists l, od_get "fg" (_layers (self st')) = Some (LayerRef l))
    /\ extends example_lazy st'.
Proof.
  destruct (unlazify_loads_all example_lazy example_lazy_wf) as (st' & H1 & H2 & H3).
  exists st'. split; [assumption|]. split; [|assumption].
  apply H2. rewrite (ext_keys _ _ H3). apply od_contains_true. vm_compute. reflexivity.
Defined.

End Iteration.

(** ** Round trips *)

Section RoundTrips.
Implicit Types (st : St) (n name : string).

Lemma od_del_app_fresh {V} (d : list (string * V)) k v :
  k ∉ od_keys d -> od_del k (d ++ [(k, v)]) = d.
Proof.
  unfold od_keys. induction d as [|[k' v'] d IH]; intros Hk.
  - simpl. rewrite decide_True by reflexivity. reflexivity.
  - rewrite fmap_cons in Hk. apply not_elem_of_cons in Hk as [Hne Hk]. simpl in Hne.
    simpl. rewrite decide_False by congruence. rewrite IH by assumption. reflexivity.
Qed.

(** X24. Adding a layer and deleting it again gives back the dictionary of
    layers as it was, entry for entry and in the same order; the default
    layer, the reader and the trace are untouched. The layer object that was
    made stays in the heap, referred to by no entry. *)
Theorem newLayer_then_delete st name l L :
  name ∉ od_keys (_layers (self st)) ->
  defaultLayer (self st) = Some (LayerRef l) ->
  heap st !! l = Some L ->
  name ≠ Layer._name L ->
  (layer <- newLayer name ;; __delitem__ name) st
  = (inr tt, mkSt (self st) (heap st ++ [Layer.mk name ∅]) (trace st)).
Proof.
  intros Hfresh Hd HL Hne.
  assert (l < length (heap st)) as Hlt by (eapply lookup_lt_Some; eassumption).
  assert (newLayer name st
          = (inr (length (heap st)),
             mkSt (LayerSet.mk (_layers (self st) ++ [(name, LayerRef (length (heap st)))])
                     (defaultLayer (self st)) (_reader (self st)))
               (heap st ++ [Layer.mk name ∅]) (trace st))) as Hnew.
  { unfold newLayer. monad_unfold. simpl.
    rewrite (proj2 (od_contains_false _ _) Hfresh). simpl.
    rewrite od_set_fresh by assumption. reflexivity. }
  unfold bind at 1. rewrite Hnew.
  unfold __delitem__, defaultLayer_name, del_layers_item. monad_unfold.
  cbn [self heap trace _layers defaultLayer _reader LayerSet._layers
       LayerSet.defaultLayer LayerSet._reader].
  rewrite Hd.
  cbn [self heap trace _layers defaultLayer _reader LayerSet._layers
       LayerSet.defaultLayer LayerSet._reader].
  rewrite lookup_app_l by assumption. rewrite HL.
  cbn beta iota. rewrite decide_False by assumption.
  cbn [self heap trace _layers defaultLayer _reader LayerSet._layers
       LayerSet.defaultLayer LayerSet._reader].
  rewrite (proj2 (od_contains_true _ _)).
  2: { unfold od_keys. rewrite fmap_app, elem_of_app. right. simpl. left. }
  cbn [self heap trace _layers defaultLayer _reader LayerSet._layers
       LayerSet.defaultLayer LayerSet._reader].
  rewrite od_del_app_fresh by assumption.
  monad_unfold. destruct st as [[d dflt rd] h t]. simpl in *. subst dflt. reflexivity.
Qed.

Lemma newLayer_then_delete_witness :
  (layer <- newLayer "sketches" ;; __delitem__ "sketches") two_layers
  = (inr tt, mkSt (self two_layers) (heap two_layers ++ [Layer.mk "sketches" ∅])
               (trace two_layers)).
Proof.
  apply (newLayer_then_delete two_layers "sketches" 0 (Layer.mk DEFAULT_LAYER_NAME ∅)).
  - apply od_contains_false. vm_compute. reflexivity.
  - reflexivity.
  - reflexivity.
  - discriminate.
Defined.

Lemma od_ext {V} (d1 d2 : list (string * V)) :
  NoDup (od_keys d1) -> od_keys d1 = od_keys d2 ->
  (forall n, od_get n d1 = od_get n d2) -> d1 = d2.
Proof.
  unfold od_keys. revert d2. induction d1 as [|[k v] d1 IH]; intros [|[k' v'] d2] Hnd Hk Hg;
    try discriminate Hk; [reflexivity|].
  rewrite !fmap_cons in Hk. simpl in Hk. injection Hk as -> Hk.
  rewrite fmap_cons in Hnd. apply NoDup_cons in Hnd as [Hfresh Hnd]. simpl in Hfresh.
  pose proof (Hg k') as Hv. simpl in Hv. rewrite !decide_True in Hv by reflexivity.
  injection Hv as ->. f_equal. apply IH; [assumption | assumption |].
  intros n. specialize (Hg n). simpl in Hg.
  destruct (decide (k' = n)) as [<-|Hne]; [|assumption].
  transitivity (@None V); [|symmetry]; apply od_get_None; unfold od_keys.
  - assumption.
  - rewrite <- Hk. assumption.
Qed.

Lemma layerOrder_setter_run (order : list string) st :
  (forall n, n ∈ order <-> n ∈ od_keys (_layers (self st))) ->
  exists layers',
    layerOrder_setter order st
    = (inr tt, mkSt (LayerSet.mk layers' (defaultLayer (self st)) (_reader (self st)))
                 (heap st) (trace st))
    /\ od_keys layers' = fresh_names [] order
    /\ (forall n, od_get n layers' = od_get n (_layers (self st))).
Proof.
  intros H. unfold layerOrder_setter.
  destruct (layerOrder_setter_loop_ok order (_layers (self st)) [] st)
    as (layers' & Hrun & Hkeys & Hget).
  { intros n Hn. apply H. assumption. }
  exists layers'. monad_unfold. simpl.
  rewrite bool_decide_eq_true_2 by (apply set_eq_names; assumption).
  simpl. rewrite Hrun. simpl. split; [reflexivity|]. split; [assumption|].
  intros n. rewrite Hget. destruct (decide (n ∈ order)) as [Hn|Hn]; [reflexivity|].
  simpl. symmetry. apply od_get_None. rewrite <- H. assumption.
Qed.

(** X25. Reordering the layers and then setting the order back to what it
    was gives back the layer set as it was: the same entries, pending or
    loaded, in the same order. *)
Theorem layerOrder_round_trip (order : list string) st :
  NoDup (od_keys (_layers (self st))) ->
  (forall n, n ∈ order <-> n ∈ od_keys (_layers (self st))) ->
  (order0 <- layerOrder ;; layerOrder_setter order ;; layerOrder_setter order0) st
  = (inr tt, st).
Proof.
  intros Hnd Hsame.
  destruct (layerOrder_setter_run order st Hsame) as (layers1 & Hrun1 & Hkeys1 & Hget1).
  set (st1 := mkSt (LayerSet.mk layers1 (defaultLayer (self st)) (_reader (self st)))
                (heap st) (trace st)) in *.
  destruct (layerOrder_setter_run (od_keys (_layers (self st))) st1)
    as (layers2 & Hrun2 & Hkeys2 & Hget2).
  { intros n. simpl. split; intros Hn.
    - apply od_get_is_Some. rewrite Hget1. apply od_get_is_Some. assumption.
    - apply od_get_is_Some in Hn. rewrite Hget1 in Hn.
      apply od_get_is_Some in Hn. assumption. }
  unfold bind at 1, layerOrder at 1. unfold bind at 1, get_self at 1, ret at 1.
  unfold bind at 1. rewrite Hrun1. fold st1. rewrite Hrun2. simpl.
  assert (layers2 = _layers (self st)) as ->.
  { apply od_ext.
    - rewrite Hkeys2. rewrite fresh_names_NoDup; [assumption | assumption |].
      intros n _. apply not_elem_of_nil.
    - rewrite Hkeys2. apply fresh_names_NoDup; [assumption|].
      intros n _. apply not_elem_of_nil.
    - intros n. rewrite Hget2. simpl. apply Hget1. }
  destruct st as [[d dflt rd] h t]. reflexivity.
Qed.

Lemma layerOrder_round_trip_witness :
  (order0 <- layerOrder ;; layerOrder_setter ["fg"; DEFAULT_LAYER_NAME; "bg"] ;;
   layerOrder_setter order0) example_lazy
  = (inr tt, example_lazy).
Proof.
  apply (layerOrder_round_trip ["fg"; DEFAULT_LAYER_NAME; "bg"] example_lazy).
  - rewrite example_lazy_layers.
    apply (bool_decide_unpack (NoDup [DEFAULT_LAYER_NAME; "bg"; "fg"])).
    vm_compute. exact I.
  - apply set_eq_names. vm_compute. reflexivity.
Defined.

End RoundTrips.

(** ** Deleting, then writing in place *)

Section DeleteThenWrite.
Implicit Types (st : St) (n name : string).

Lemma write_in_place_run writer st :
  write writer (Some false) st
  = (inr tt, mkSt (self st) (heap st)
               (trace st
                  ++ (EvDeleteGlyphSet (store_id writer)
                        <$> deleted_layers writer (_layers (self st)))
                  ++ flat_map (in_place_events writer (_layers (self st))
                                 (defaultLayer (self st)))
                       (od_keys (_layers (self st)))
                  ++ [EvWriteLayerContents (store_id writer)
                        (od_keys (_layers (self st)))])).
Proof.
  unfold write. unfold bind at 1, get_self at 1. cbn [negb].
  unfold bind at 1. rewrite delete_glyph_sets_spec.
  unfold bind at 1. rewrite write_layers_in_place by (simpl; auto).
  unfold layerOrder. monad_unfold. simpl. rewrite <- !app_assoc. reflexivity.
Qed.

(** X26. A layer deleted from the set is deleted from the package by the
    next write in place: when the writer lists the name, the write asks it to
    delete the glyph set of that name, asks for no glyph set of that name to
    write into, and commits an order that does not have the name. *)
Theorem delete_then_write_in_place writer st name l L :
  NoDup (od_keys (_layers (self st))) ->
  defaultLayer (self st) = Some (LayerRef l) ->
  heap st !! l = Some L ->
  name ≠ Layer._name L ->
  name ∈ od_keys (_layers (self st)) ->
  name ∈ getLayerNames writer ->
  exists deleted written,
    (__delitem__ name ;; write writer (Some false)) st
    = (inr tt, mkSt (LayerSet.mk (od_del name (_layers (self st)))
                       (defaultLayer (self st)) (_reader (self st)))
                 (heap st)
                 (trace st ++ (EvDeleteGlyphSet (store_id writer) <$> deleted) ++ written
                    ++ [EvWriteLayerContents (store_id writer)
                          (filter (fun k => k ≠ name) (od_keys (_layers (self st))))]))
    /\ name ∈ deleted
    /\ (forall default, EvGetGlyphSet (store_id writer) name default ∉ written).
Proof.
  intros Hnd Hd HL Hne Hin Hw.
  set (st1 := mkSt (LayerSet.mk (od_del name (_layers (self st)))
                      (defaultLayer (self st)) (_reader (self st)))
                (heap st) (trace st)).
  assert (__delitem__ name st = (inr tt, st1)) as Hdel.
  { unfold __delitem__, defaultLayer_name, del_layers_item. monad_unfold.
    rewrite Hd, HL. rewrite decide_False by assumption.
    rewrite (proj2 (od_contains_true _ _) Hin). reflexivity. }
  assert (name ∉ od_keys (od_del name (_layers (self st)))) as Hgone.
  { apply od_get_None, od_get_del_eq. assumption. }
  exists (deleted_layers writer (_layers (self st1))),
    (flat_map (in_place_events writer (_layers (self st1)) (defaultLayer (self st1)))
       (od_keys (_layers (self st1)))).
  split; [|split].
  - unfold bind at 1. rewrite Hdel. rewrite write_in_place_run.
    unfold st1. simpl. rewrite od_keys_del_NoDup by assumption. reflexivity.
  - apply (proj2 (deleted_layers_spec writer (_layers (self st1)))).
    split; assumption.
  - intros default Hev. apply list_elem_of_In, in_flat_map in Hev as (n & Hn & Hev).
    unfold in_place_events in Hev.
    destruct (od_get n (_layers (self st1))) as [[|l']|]; simpl in Hev; try tauto.
    destruct Hev as [Hev|[Hev|[]]]; [|discriminate Hev].
    injection Hev as <- _. apply Hgone. apply list_elem_of_In. assumption.
Qed.

Lemma delete_then_write_in_place_witness :
  exists deleted written,
    (__delitem__ "bg" ;; write example_store (Some false)) example_lazy
    = (inr tt, mkSt (LayerSet.mk (od_del "bg" (_layers (self example_lazy)))
                       (defaultLayer (self example_lazy)) (_reader (self example_lazy)))
                 (heap example_lazy)
                 (trace example_lazy
                    ++ (EvDeleteGlyphSet (store_id example_store) <$> deleted) ++ written
                    ++ [EvWriteLayerContents (store_id example_store)
                          (filter (fun k => k ≠ "bg")
                             (od_keys (_layers (self example_lazy))))]))
    /\ "bg" ∈ deleted.
Proof.
  destruct (delete_then_write_in_place example_store example_lazy "bg" 0
              (Layer.mk DEFAULT_LAYER_NAME (glyphs_named ["c"])))
    as (deleted & written & H1 & H2 & _).
  - rewrite example_lazy_layers.
    apply (bool_decide_unpack (NoDup [DEFAULT_LAYER_NAME; "bg"; "fg"])).
    vm_compute. exact I.
  - reflexivity.
  - reflexivity.
  - discriminate.
  - apply od_contains_true. vm_compute. reflexivity.
  - apply list_elem_of_In. simpl. tauto.
  - exists deleted, written. split; assumption.
Defined.

End DeleteThenWrite.

(** ** More of the guideline *)

Section GuidelineMore.
Import Guideline.

(** X27. Of x and y the validation looks only at whether they are given,
    never at their values, and it does not look at the name, the colour or
    the identifier at all: two guidelines that agree on which of x and y is
    given and on the angle are both accepted, or both rejected with the same
    error. *)
Theorem guideline_presence_only (x y x' y' angle : option Number)
    (n c i n' c' i' : option string) :
  (x = None <-> x' = None) -> (y = None <-> y' = None) ->
  __attrs_post_init__ (mkGuideline x y angle n c i)
  = __attrs_post_init__ (mkGuideline x' y' angle n' c' i').
Proof.
  intros Hx Hy. unfold __attrs_post_init__. simpl.
  destruct x as [vx|], x' as [vx'|];
    try (exfalso; destruct Hx as [H1 H2]; (discriminate (H1 eq_refl) || discriminate (H2 eq_refl)));
    destruct y as [vy|], y' as [vy'|];
    try (exfalso; destruct Hy as [H1 H2]; (discriminate (H1 eq_refl) || discriminate (H2 eq_refl)));
    reflexivity.
Qed.

Lemma guideline_presence_only_witness :
  __attrs_post_init__ (mkGuideline (Some NaN) None None (Some "a") None None)
  = __attrs_post_init__ (mkGuideline (Some (of_int 7)) None None None None (Some "id")).
Proof.
  apply (guideline_presence_only (Some NaN) None (Some (of_int 7)) None None).
  - split; discriminate.
  - split; reflexivity.
Defined.

(** X28. An angle that is no finite number is never accepted: with NaN or
    an infinity as the angle the construction fails, whatever x and y are. *)
Theorem guideline_angle_not_finite (x y : option Number) (a : Number)
    (n c i : option string) :
  (a = NaN \/ exists negative, a = Infinity negative) ->
  exists e, __init__ x y (Some a) n c i = inl e.
Proof.
  intros Ha. unfold __init__, __attrs_post_init__. simpl.
  destruct x as [vx|], y as [vy|]; simpl; eauto.
  destruct Ha as [->|[[] ->]]; simpl; eauto.
Qed.

Lemma guideline_angle_not_finite_witness :
  exists e, __init__ (Some (of_int 1)) (Some (of_int 2)) (Some NaN) None None None = inl e.
Proof.
  apply (guideline_angle_not_finite (Some (of_int 1)) (Some (of_int 2)) NaN).
  left. reflexivity.
Defined.

End GuidelineMore.

(** ** Renaming a glyph to its own name *)

Section RenameGlyphSame.

(** X29. Renaming a glyph to the name it has returns at once, in every
    state and whatever [overwrite] is: nothing is raised, also when no layer
    holds the name, and nothing is changed; no pending layer is loaded. *)
Theorem renameGlyph_same_name (name : string) (overwrite : bool) (st : St) :
  renameGlyph name name overwrite st = (inr tt, st).
Proof.
  unfold renameGlyph. rewrite decide_True by reflexivity. reflexivity.
Qed.

End RenameGlyphSame.
